(** * Point-cloud scalar quantity: range mapping and colormap state

    A shallow embedding of [PointCloudScalarQuantity]
    (src/3rd_party/polyscope/src/point_cloud_scalar_quantity.cpp) and the
    properties of its range/colormap state machine.

    Doubles are IEEE binary64 values (Rocq's primitive floats), so NaN,
    signed zeros and infinities behave as they do in the program; the
    floats of [vizRange] are the doubles that binary32 can hold, and a
    double stored there is rounded to the nearest of them.  Calls
    that leave the class (the histogram, the error sink, the redraw flag,
    ImGui, the GL program) are recorded, in program order, in an event
    log that is threaded through every method. *)

From Stdlib Require Import Floats List String DecimalString Bool ZArith Lia.
Import ListNotations.

Set Warnings "-inexact-float".

(** ** Conversion to [float]

    [vizRange] is a pair of [float] (its members are handed to ImGui as
    [float*], lines 108-117), so every pair of doubles assigned to it is
    converted to binary32: round to nearest, ties to even.  A [float] is
    held here as the [double] it widens to. *)

Module Float32.

Local Open Scope Z_scope.

(** [n / 2^s] rounded to the nearest integer, ties to even. *)
Definition rne (n s : Z) : Z :=
  let q := n / 2 ^ s in
  let r := n mod 2 ^ s in
  let half := 2 ^ (s - 1) in
  if r <? half then q
  else if half <? r then q + 1
  else if Z.even q then q else q + 1.

Lemma rne_bounds n s : n / 2 ^ s <= rne n s <= n / 2 ^ s + 1.
Proof.
  unfold rne. destruct (_ <? _); [lia|]. destruct (_ <? _); [lia|].
  destruct (Z.even _); lia.
Qed.

Lemma rne_mono n1 n2 s : 0 <= s -> n1 <= n2 -> rne n1 s <= rne n2 s.
Proof.
  intros Hs Hn.
  assert (Hp : 0 < 2 ^ s) by (apply Z.pow_pos_nonneg; lia).
  assert (Hq : n1 / 2 ^ s <= n2 / 2 ^ s) by (apply Z.div_le_mono; lia).
  destruct (Z.eq_dec (n1 / 2 ^ s) (n2 / 2 ^ s)) as [E|E].
  - assert (Hr : n1 mod 2 ^ s <= n2 mod 2 ^ s).
    { rewrite !Z.mod_eq by lia. rewrite E. lia. }
    unfold rne. rewrite E.
    destruct (n1 mod 2 ^ s <? 2 ^ (s - 1)) eqn:A1;
      destruct (n2 mod 2 ^ s <? 2 ^ (s - 1)) eqn:A2;
      destruct (2 ^ (s - 1) <? n1 mod 2 ^ s) eqn:B1;
      destruct (2 ^ (s - 1) <? n2 mod 2 ^ s) eqn:B2;
      destruct (Z.even (n2 / 2 ^ s)); lia.
  - pose proof (rne_bounds n1 s). pose proof (rne_bounds n2 s). lia.
Qed.

Lemma rne_exact k s : 0 < s -> rne (k * 2 ^ s) s = k.
Proof.
  intros Hs.
  assert (Hp : 0 < 2 ^ s) by (apply Z.pow_pos_nonneg; lia).
  assert (Hh : 0 < 2 ^ (s - 1)) by (apply Z.pow_pos_nonneg; lia).
  unfold rne. rewrite Z.div_mul by lia. rewrite Z.mod_mul by lia.
  destruct (0 <? 2 ^ (s - 1)) eqn:E; [reflexivity|lia].
Qed.

Lemma rne_small n s : 0 < s -> 0 <= n < 2 ^ (s - 1) -> rne n s = 0.
Proof.
  intros Hs Hn.
  assert (Hh : 2 ^ s = 2 * 2 ^ (s - 1)).
  { replace s with (Z.succ (s - 1)) at 1 by lia. apply Z.pow_succ_r. lia. }
  unfold rne. rewrite Z.div_small, Z.mod_small by lia.
  destruct (n <? 2 ^ (s - 1)) eqn:E; [reflexivity|lia].
Qed.

Lemma rne_le n k s : 0 < s -> n <= k * 2 ^ s -> rne n s <= k.
Proof. intros Hs H. rewrite <- (rne_exact k s Hs). apply rne_mono; lia. Qed.

Lemma rne_ge n k s : 0 < s -> k * 2 ^ s <= n -> k <= rne n s.
Proof. intros Hs H. rewrite <- (rne_exact k s Hs). apply rne_mono; lia. Qed.

(* digits *)
Lemma digits2_size p : digits2_pos p = Pos.size p.
Proof. induction p; cbn; congruence. Qed.

Lemma digits_bounds p :
  2 ^ (Zpos (digits2_pos p) - 1) <= Zpos p < 2 ^ Zpos (digits2_pos p).
Proof.
  rewrite digits2_size.
  pose proof (Pos.size_gt p) as Hgt. pose proof (Pos.size_le p) as Hle.
  apply Pos2Z.pos_lt_pos in Hgt. apply Pos2Z.pos_le_pos in Hle.
  rewrite Pos2Z.inj_pow in Hgt, Hle.
  split; [|exact Hgt].
  set (d := Z.pos (Pos.size p)) in *.
  assert (H2 : 2 ^ d = 2 * 2 ^ (d - 1)).
  { rewrite <- Z.pow_succ_r by (unfold d; lia). f_equal. lia. }
  change (Z.pos p~0) with (2 * Z.pos p) in Hle. lia.
Qed.

Lemma digits_unique p n : 2 ^ (n - 1) <= Zpos p < 2 ^ n -> Zpos (digits2_pos p) = n.
Proof.
  intros [H1 H2]. destruct (digits_bounds p) as [B1 B2].
  assert (0 < n).
  { destruct (Z_lt_le_dec 0 n); [assumption|].
    assert (2 ^ n <= 1).
    { destruct (Z.eq_dec n 0); [subst; cbn; lia|]. rewrite Z.pow_neg_r by lia. lia. }
    lia. }
  assert (n - 1 < Zpos (digits2_pos p)).
  { apply (Z.pow_lt_mono_r_iff 2); lia. }
  assert (Zpos (digits2_pos p) - 1 < n).
  { apply (Z.pow_lt_mono_r_iff 2); lia. }
  lia.
Qed.

Lemma digits_le_of_le p n : 0 <= n -> Zpos p <= 2 ^ n -> Zpos (digits2_pos p) <= n + 1.
Proof.
  intros Hn H. destruct (digits_bounds p) as [B1 B2].
  assert (Zpos (digits2_pos p) - 1 < n + 1).
  { apply (Z.pow_lt_mono_r_iff 2); try lia.
    rewrite Z.pow_add_r by lia. change (2 ^ 1) with 2. lia. }
  lia.
Qed.

Lemma digits_ge_of_ge p n : 0 <= n -> 2 ^ n <= Zpos p -> n + 1 <= Zpos (digits2_pos p).
Proof.
  intros Hn H. destruct (digits_bounds p) as [B1 B2].
  assert (n < Zpos (digits2_pos p)).
  { apply (Z.pow_lt_mono_r_iff 2); lia. }
  lia.
Qed.

(** The number of low bits a binary64 mantissa loses: 29 (from 53 bits
    to 24), more when the result is a binary32 subnormal (a multiple of
    [2^-149]). *)
Definition shiftOf (e : Z) : Z := Z.max 29 (-149 - e).

(** [(float) x] for a finite binary64 [x = (-1)^s * m * 2^e]: the
    mantissa is rounded to a multiple [k] of [2^(e + shiftOf e)], then
    written back as a binary64; a result of [2^128] or more is an
    infinity, a [k] of zero a signed zero. *)
Definition round_finite (s : bool) (m : positive) (e : Z) : spec_float :=
  let sh := shiftOf e in
  match rne (Zpos m) sh with
  | Zpos k =>
      let d := Zpos (digits2_pos k) in
      let e' := e + sh + d - 53 in
      if 76 <=? e' then S754_infinity s
      else S754_finite s (Z.to_pos (Zpos k * 2 ^ (53 - d))) e'
  | _ => S754_zero s
  end.

(** Zeros, infinities and NaN convert to themselves. *)
Definition round_SF (x : spec_float) : spec_float :=
  match x with
  | S754_finite s m e => round_finite s m e
  | _ => x
  end.

(** The conversion of a [double] to [float], read back as the [double]
    it widens to. *)
Definition to_float (x : float) : float := SF2Prim (round_SF (Prim2SF x)).

Lemma valid_finite_inv s m e :
  valid_binary (S754_finite s m e) = true ->
  Zpos m < 2 ^ 53 /\ -1074 <= e <= 971 /\ (-1074 < e -> 2 ^ 52 <= Zpos m).
Proof.
  intros H. cbn [SpecFloat.valid_binary] in H.
  unfold bounded, canonical_mantissa, fexp, SpecFloat.emin in H.
  change (3 - emax - prec) with (-1074) in H.
  change (emax - prec) with 971 in H. change prec with 53 in H.
  apply andb_prop in H. destruct H as [H1 H2].
  apply Z.eqb_eq in H1. apply Z.leb_le in H2.
  destruct (digits_bounds m) as [B1 B2].
  set (d := Zpos (digits2_pos m)) in *.
  assert (Hd : d <= 53) by lia.
  split.
  - apply Z.lt_le_trans with (1 := B2). apply Z.pow_le_mono_r; lia.
  - split; [lia|]. intros He. assert (d = 53) by lia.
    replace 52 with (d - 1) by lia. exact B1.
Qed.

Lemma finite_valid s m e :
  2 ^ 52 <= Zpos m < 2 ^ 53 -> -1074 <= e <= 971 ->
  valid_binary (S754_finite s m e) = true.
Proof.
  intros Hm He. cbn [SpecFloat.valid_binary].
  unfold bounded, canonical_mantissa, fexp, SpecFloat.emin.
  change (3 - emax - prec) with (-1074). change (emax - prec) with 971.
  change prec with 53.
  rewrite (digits_unique m 53) by exact Hm.
  apply andb_true_intro. split; [apply Z.eqb_eq|apply Z.leb_le]; lia.
Qed.

Lemma rne_valid_le s m e :
  valid_binary (S754_finite s m e) = true ->
  0 <= rne (Zpos m) (shiftOf e) <= 2 ^ 24.
Proof.
  intros H. destruct (valid_finite_inv _ _ _ H) as (Hm & He & _).
  unfold shiftOf. split.
  - apply (rne_ge _ 0); lia.
  - apply rne_le; [lia|].
    apply Z.le_trans with (2 ^ 24 * 2 ^ 29); [change (2 ^ 24 * 2 ^ 29) with (2 ^ 53); lia|].
    apply Z.mul_le_mono_nonneg_l; [lia|]. apply Z.pow_le_mono_r; lia.
Qed.

Lemma rne_normal_ge m e :
  2 ^ 52 <= Zpos m -> -149 <= e + 29 ->
  2 ^ 23 <= rne (Zpos m) (shiftOf e).
Proof.
  intros Hm He. unfold shiftOf. rewrite Z.max_l by lia.
  apply rne_ge; [lia|]. change (2 ^ 23 * 2 ^ 29) with (2 ^ 52). exact Hm.
Qed.

Lemma round_finite_cases s m e :
  round_finite s m e = S754_zero s \/
  round_finite s m e = S754_infinity s \/
  exists m' e', round_finite s m e = S754_finite s m' e'.
Proof.
  unfold round_finite. destruct (rne _ _); auto.
  destruct (76 <=? _); eauto.
Qed.

Lemma round_finite_valid s m e :
  valid_binary (S754_finite s m e) = true ->
  valid_binary (round_finite s m e) = true.
Proof.
  intros H. pose proof (rne_valid_le _ _ _ H) as Hk.
  destruct (valid_finite_inv _ _ _ H) as (Hm & He & _).
  unfold round_finite.
  destruct (rne (Zpos m) (shiftOf e)) as [|k|k] eqn:E; try reflexivity.
  destruct (76 <=? _) eqn:O; [reflexivity|].
  apply Z.leb_gt in O.
  destruct (digits_bounds k) as [B1 B2].
  pose proof (digits_le_of_le k 24 ltac:(lia) (proj2 Hk)) as Hd.
  set (d := Zpos (digits2_pos k)) in *.
  assert (Hd1 : 1 <= d) by (unfold d; lia).
  assert (P1 : 2 ^ 52 = 2 ^ (d - 1) * 2 ^ (53 - d)).
  { rewrite <- Z.pow_add_r by lia. f_equal. lia. }
  assert (P2 : 2 ^ 53 = 2 ^ d * 2 ^ (53 - d)).
  { rewrite <- Z.pow_add_r by lia. f_equal. lia. }
  assert (Pp : 0 < 2 ^ (53 - d)) by (apply Z.pow_pos_nonneg; lia).
  apply finite_valid.
  - rewrite Z2Pos.id by nia. rewrite P1, P2. split.
    + apply Z.mul_le_mono_nonneg_r; lia.
    + apply Z.mul_lt_mono_pos_r; lia.
  - unfold shiftOf in *. lia.
Qed.

Lemma round_SF_valid x : valid_binary x = true -> valid_binary (round_SF x) = true.
Proof. destruct x; cbn [round_SF]; auto. apply round_finite_valid. Qed.

Lemma digits_mono p1 p2 : Zpos p1 <= Zpos p2 ->
  Zpos (digits2_pos p1) <= Zpos (digits2_pos p2).
Proof.
  intros H. destruct (digits_bounds p1) as [B1 _]. destruct (digits_bounds p2) as [_ B2].
  assert (Zpos (digits2_pos p1) - 1 < Zpos (digits2_pos p2)).
  { apply (Z.pow_lt_mono_r_iff 2); lia. }
  lia.
Qed.

(** The binary64 form of [(-1)^s * k * 2^q]. *)
Definition pack (s : bool) (k q : Z) : spec_float :=
  match k with
  | Zpos p =>
      let d := Zpos (digits2_pos p) in
      let e' := q + d - 53 in
      if 76 <=? e' then S754_infinity s
      else S754_finite s (Z.to_pos (Zpos p * 2 ^ (53 - d))) e'
  | _ => S754_zero s
  end.

Lemma round_finite_pack s m e :
  round_finite s m e = pack s (rne (Zpos m) (shiftOf e)) (e + shiftOf e).
Proof. reflexivity. Qed.

Lemma SFleb_finite_pos m1 e1 m2 e2 :
  SFleb (S754_finite false m1 e1) (S754_finite false m2 e2) = true <->
  (e1 < e2 \/ (e1 = e2 /\ Zpos m1 <= Zpos m2)).
Proof.
  unfold SFleb. cbn [SFcompare].
  change (PosDef.Pos.compare_cont Eq m1 m2) with (Pos.compare m1 m2).
  destruct (Z.compare_spec e1 e2) as [E|E|E].
  - destruct (Pos.compare_spec m1 m2) as [F|F|F]; split; intros H;
      try discriminate; try reflexivity; lia.
  - split; auto.
  - split; [discriminate|lia].
Qed.

Lemma mantissa_of k d :
  0 < k -> 0 <= 53 - d ->
  Zpos (Z.to_pos (k * 2 ^ (53 - d))) = k * 2 ^ (53 - d).
Proof.
  intros Hk Hd. apply Z2Pos.id.
  apply Z.mul_pos_pos; [lia|]. apply Z.pow_pos_nonneg; lia.
Qed.

Lemma pack_mono k1 q1 k2 q2 :
  0 <= k1 -> k2 <= 2 ^ 24 ->
  ((q1 = q2 /\ k1 <= k2) \/ (q1 < q2 /\ k1 <= 2 ^ 24 /\ 2 ^ 23 <= k2)) ->
  SFleb (pack false k1 q1) (pack false k2 q2) = true.
Proof.
  intros H1 H2 H.
  assert (T23 : 0 < 2 ^ 23) by (apply Z.pow_pos_nonneg; lia).
  destruct k1 as [|p1|p1]; [|clear H1|lia].
  { unfold pack at 1. unfold pack. destruct k2; try reflexivity.
    destruct (76 <=? _); reflexivity. }
  destruct k2 as [|p2|p2]; try lia.
  assert (K1 : Zpos p1 <= 2 ^ 24) by lia.
  pose proof (digits_le_of_le p1 24 ltac:(lia) K1) as D1.
  pose proof (digits_le_of_le p2 24 ltac:(lia) H2) as D2.
  destruct (digits_bounds p1) as [B1 B1'].
  destruct (digits_bounds p2) as [B2 B2'].
  unfold pack.
  set (d1 := Zpos (digits2_pos p1)) in *.
  set (d2 := Zpos (digits2_pos p2)) in *.
  assert (Hd1 : 1 <= d1) by (unfold d1; lia).
  assert (Hd2 : 1 <= d2) by (unfold d2; lia).
  assert (Hord : q1 + d1 - 53 <= q2 + d2 - 53 /\
                 (q1 + d1 - 53 = q2 + d2 - 53 ->
                  Zpos p1 * 2 ^ (53 - d1) <= Zpos p2 * 2 ^ (53 - d2))).
  { destruct H as [[Hq Hk]|[Hq [Hk1 Hk2]]].
    - pose proof (digits_mono p1 p2 Hk) as Hm. fold d1 d2 in Hm.
      split; [lia|]. intros E. assert (d1 = d2) by lia.
      replace d2 with d1 by lia. apply Z.mul_le_mono_nonneg_r; [|lia].
      apply Z.pow_nonneg; lia.
    - pose proof (digits_ge_of_ge p2 23 ltac:(lia) Hk2) as G2. fold d2 in G2.
      split; [lia|]. intros E.
      assert (d1 = 25) by lia. assert (d2 = 24) by lia.
      assert (P1 : Zpos p1 = 2 ^ 24).
      { replace (d1 - 1) with 24 in B1 by lia. lia. }
      rewrite P1. replace (53 - d1) with 28 by lia. replace (53 - d2) with 29 by lia.
      apply Z.le_trans with (2 ^ 23 * 2 ^ 29).
      + rewrite <- !Z.pow_add_r by lia. apply Z.pow_le_mono_r; lia.
      + apply Z.mul_le_mono_nonneg_r; [apply Z.pow_nonneg; lia|].
        replace (d2 - 1) with 23 in B2 by lia. exact B2. }
  destruct Hord as [He Hm].
  destruct (76 <=? q1 + d1 - 53) eqn:O1; destruct (76 <=? q2 + d2 - 53) eqn:O2;
    try reflexivity.
  - apply Z.leb_le in O1. apply Z.leb_gt in O2. lia.
  - apply SFleb_finite_pos.
    rewrite !mantissa_of by lia.
    destruct (Z.eq_dec (q1 + d1 - 53) (q2 + d2 - 53)) as [E|E].
    + right. split; [exact E|]. now apply Hm.
    + left. lia.
Qed.

Lemma round_inputs_ordered m1 e1 m2 e2 :
  valid_binary (S754_finite false m1 e1) = true ->
  valid_binary (S754_finite false m2 e2) = true ->
  (e1 < e2 \/ (e1 = e2 /\ Zpos m1 <= Zpos m2)) ->
  let k1 := rne (Zpos m1) (shiftOf e1) in
  let k2 := rne (Zpos m2) (shiftOf e2) in
  let q1 := e1 + shiftOf e1 in
  let q2 := e2 + shiftOf e2 in
  (q1 = q2 /\ k1 <= k2) \/ (q1 < q2 /\ k1 <= 2 ^ 24 /\ 2 ^ 23 <= k2).
Proof.
  intros V1 V2 H k1 k2 q1 q2.
  pose proof (rne_valid_le _ _ _ V1) as K1. fold k1 in K1.
  pose proof (rne_valid_le _ _ _ V2) as K2. fold k2 in K2.
  destruct (valid_finite_inv _ _ _ V1) as (M1 & E1 & _).
  destruct (valid_finite_inv _ _ _ V2) as (M2 & E2 & N2).
  destruct H as [He|[He Hm]].
  - assert (N : 2 ^ 52 <= Zpos m2) by (apply N2; lia).
    destruct (Z_lt_le_dec (-149) (e2 + 29)) as [C|C].
    + right. split; [unfold q1, q2, shiftOf; lia|]. split; [lia|].
      apply rne_normal_ge; [exact N|lia].
    + left. split; [unfold q1, q2, shiftOf; lia|].
      unfold k1, k2, shiftOf. rewrite !Z.max_r by lia.
      set (s1 := -149 - e1). set (s2 := -149 - e2).
      assert (S12 : s2 + 1 <= s1) by (unfold s1, s2; lia).
      assert (S2 : 29 <= s2) by (unfold s2; lia).
      destruct (Z_lt_le_dec 53 s1) as [L|L].
      * rewrite (rne_small (Zpos m1) s1); [|lia|].
        -- apply (rne_ge _ 0); lia.
        -- split; [lia|]. apply Z.lt_le_trans with (1 := M1).
           apply Z.pow_le_mono_r; lia.
      * apply Z.le_trans with (2 ^ (53 - s1)).
        -- apply rne_le; [lia|]. rewrite <- Z.pow_add_r by lia.
           replace (53 - s1 + s1) with 53 by lia. lia.
        -- apply Z.le_trans with (2 ^ (52 - s2)).
           ++ apply Z.pow_le_mono_r; lia.
           ++ apply rne_ge; [lia|]. rewrite <- Z.pow_add_r by lia.
              replace (52 - s2 + s2) with 52 by lia. exact N.
  - left. subst e2. split; [reflexivity|].
    apply rne_mono; [unfold shiftOf; lia|exact Hm].
Qed.

Lemma round_finite_mono_pos m1 e1 m2 e2 :
  valid_binary (S754_finite false m1 e1) = true ->
  valid_binary (S754_finite false m2 e2) = true ->
  SFleb (S754_finite false m1 e1) (S754_finite false m2 e2) = true ->
  SFleb (round_finite false m1 e1) (round_finite false m2 e2) = true.
Proof.
  intros V1 V2 H. apply SFleb_finite_pos in H.
  rewrite !round_finite_pack.
  apply pack_mono.
  - apply (rne_valid_le _ _ _ V1).
  - apply (rne_valid_le _ _ _ V2).
  - now apply round_inputs_ordered.
Qed.

Lemma round_finite_opp s m e :
  round_finite (negb s) m e = SFopp (round_finite s m e).
Proof.
  unfold round_finite. destruct (rne _ _); try reflexivity.
  destruct (76 <=? _); reflexivity.
Qed.

Lemma round_SF_opp x : round_SF (SFopp x) = SFopp (round_SF x).
Proof. destruct x; cbn [round_SF SFopp]; try reflexivity. apply round_finite_opp. Qed.

Lemma SFcompare_opp a b : SFcompare (SFopp a) (SFopp b) = SFcompare b a.
Proof.
  destruct a as [sa|sa| |sa ma ea], b as [sb|sb| |sb mb eb]; cbn;
    try reflexivity; try (destruct sa; reflexivity);
    try (destruct sb; reflexivity); try (destruct sa, sb; reflexivity).
  change (PosDef.Pos.compare_cont Eq ma mb) with (Pos.compare ma mb).
  change (PosDef.Pos.compare_cont Eq mb ma) with (Pos.compare mb ma).
  rewrite (Z.compare_antisym ea eb), (Pos.compare_antisym ma mb).
  destruct sa, sb; cbn; try reflexivity;
    destruct (Z.compare ea eb); cbn; try reflexivity;
    destruct (Pos.compare ma mb); reflexivity.
Qed.

Lemma SFleb_opp a b : SFleb (SFopp a) (SFopp b) = SFleb b a.
Proof. unfold SFleb. now rewrite SFcompare_opp. Qed.

Lemma round_SF_mono x y :
  valid_binary x = true -> valid_binary y = true ->
  SFleb x y = true -> SFleb (round_SF x) (round_SF y) = true.
Proof.
  intros Vx Vy H.
  destruct x as [sx|sx| |sx mx ex]; destruct y as [sy|sy| |sy my ey];
    cbn [round_SF]; try exact H; try discriminate H.
  - (* zero, finite *)
    destruct sy; [discriminate H|].
    destruct (round_finite_cases false my ey) as [E|[E|[m' [e' E]]]];
      rewrite E; reflexivity.
  - (* inf, finite *)
    destruct sx; [|discriminate H].
    destruct (round_finite_cases sy my ey) as [E|[E|[m' [e' E]]]];
      rewrite E; destruct sy; reflexivity.
  - (* finite, zero *)
    destruct sx; [|discriminate H].
    destruct (round_finite_cases true mx ex) as [E|[E|[m' [e' E]]]];
      rewrite E; reflexivity.
  - (* finite, inf *)
    destruct sy; [discriminate H|].
    destruct (round_finite_cases sx mx ex) as [E|[E|[m' [e' E]]]];
      rewrite E; destruct sx; reflexivity.
  - (* finite, finite *)
    destruct sx, sy.
    + change true with (negb false). rewrite !round_finite_opp, SFleb_opp.
      apply round_finite_mono_pos; try assumption.
      change (S754_finite true mx ex) with (SFopp (S754_finite false mx ex)) in H.
      change (S754_finite true my ey) with (SFopp (S754_finite false my ey)) in H.
      now rewrite SFleb_opp in H.
    + destruct (round_finite_cases true mx ex) as [E|[E|[m' [e' E]]]];
        destruct (round_finite_cases false my ey) as [F|[F|[m'' [e'' F]]]];
        rewrite E, F; reflexivity.
    + discriminate H.
    + now apply round_finite_mono_pos.
Qed.

Lemma Prim2SF_to_float x : Prim2SF (to_float x) = round_SF (Prim2SF x).
Proof.
  unfold to_float. apply Prim2SF_SF2Prim, round_SF_valid, Prim2SF_valid.
Qed.

Lemma to_float_mono a b :
  PrimFloat.leb a b = true -> PrimFloat.leb (to_float a) (to_float b) = true.
Proof.
  rewrite !leb_spec, !Prim2SF_to_float.
  apply round_SF_mono; apply Prim2SF_valid.
Qed.

Lemma to_float_opp x : to_float (- x) = (- to_float x)%float.
Proof.
  apply Prim2SF_inj. rewrite opp_spec, !Prim2SF_to_float, opp_spec.
  apply round_SF_opp.
Qed.

Lemma to_float_nan x : Prim2SF (to_float x) = S754_nan <-> Prim2SF x = S754_nan.
Proof.
  rewrite Prim2SF_to_float. destruct (Prim2SF x) as [s|s| |s m e]; cbn [round_SF]; try tauto.
  destruct (round_finite_cases s m e) as [E|[E|[m' [e' E]]]]; rewrite E;
    split; discriminate.
Qed.

(** Converting a [float] again changes nothing. *)
Lemma pack_carry s q : pack s (2 ^ 24) q = pack s (2 ^ 23) (q + 1).
Proof.
  change (2 ^ 24) with (Zpos (2 ^ 24)%positive).
  change (2 ^ 23) with (Zpos (2 ^ 23)%positive).
  unfold pack.
  rewrite (digits_unique (2 ^ 24)%positive 25) by (vm_compute; split; [discriminate|reflexivity]).
  rewrite (digits_unique (2 ^ 23)%positive 24) by (vm_compute; split; [discriminate|reflexivity]).
  replace (q + 1 + 24 - 53) with (q + 25 - 53) by lia.
  reflexivity.
Qed.

(** Rounding the binary64 form of [k * 2^q] gives it back, when [k] has
    at most 24 bits and [q] is the exponent binary32 gives it. *)
Lemma round_pack s k q :
  0 <= k < 2 ^ 24 -> -149 <= q -> (-149 < q -> 2 ^ 23 <= k) ->
  round_SF (pack s k q) = pack s k q.
Proof.
  intros Hk Hq Hn.
  destruct k as [|p|p]; [reflexivity| |lia].
  unfold pack.
  destruct (digits_bounds p) as [B1 B2].
  pose proof (digits_le_of_le p 24 ltac:(lia) ltac:(lia)) as D.
  set (d := Zpos (digits2_pos p)) in *.
  assert (D1 : 1 <= d) by (unfold d; lia).
  assert (D24 : d <= 24).
  { destruct (Z.eq_dec d 25) as [E|E]; [|lia].
    rewrite E in B1. change (2 ^ (25 - 1)) with (2 ^ 24) in B1. lia. }
  destruct (76 <=? q + d - 53) eqn:O; [reflexivity|].
  cbn [round_SF]. rewrite round_finite_pack.
  rewrite mantissa_of by lia.
  assert (Hs : shiftOf (q + d - 53) = 53 - d).
  { unfold shiftOf. destruct (Z_lt_le_dec (-149) q) as [C|C].
    - assert (23 < d).
      { apply (Z.pow_lt_mono_r_iff 2); lia. }
      lia.
    - lia. }
  rewrite Hs, rne_exact by lia.
  replace (q + d - 53 + (53 - d)) with q by lia.
  unfold pack. fold d. rewrite O. reflexivity.
Qed.

Lemma round_finite_idem s m e :
  valid_binary (S754_finite s m e) = true ->
  round_SF (round_finite s m e) = round_finite s m e.
Proof.
  intros V. rewrite round_finite_pack.
  pose proof (rne_valid_le _ _ _ V) as K.
  destruct (valid_finite_inv _ _ _ V) as (M & E & N).
  set (k := rne (Zpos m) (shiftOf e)) in *.
  assert (Hq : -149 <= e + shiftOf e) by (unfold shiftOf; lia).
  assert (Hn : -149 < e + shiftOf e -> 2 ^ 23 <= k).
  { intros C. apply rne_normal_ge; [apply N|]; unfold shiftOf in C; lia. }
  assert (T : 0 < 2 ^ 23) by (apply Z.pow_pos_nonneg; lia).
  destruct (Z.eq_dec k (2 ^ 24)) as [C|C].
  - rewrite C, pack_carry. apply round_pack; [split; [lia|]|lia|lia].
    apply Z.pow_lt_mono_r; lia.
  - apply round_pack; [lia|exact Hq|exact Hn].
Qed.

Lemma round_SF_idem x :
  valid_binary x = true -> round_SF (round_SF x) = round_SF x.
Proof. destruct x; cbn [round_SF]; auto. apply round_finite_idem. Qed.

Lemma to_float_idem x : to_float (to_float x) = to_float x.
Proof.
  apply Prim2SF_inj. rewrite !Prim2SF_to_float.
  apply round_SF_idem, Prim2SF_valid.
Qed.

(** The reference conversion of the standard library, for comparison. *)
Definition reference (x : float) : float :=
  match Prim2SF x with
  | S754_finite s m e => SF2Prim (binary_round 24 128 s m e)
  | _ => x
  end.

Example to_float_samples :
  List.map to_float
    [0.1; 0.2; 0.3; -0.7; 16777217; 1e300; 1e-50; -1e-50;
     3.4028235677973366e38; 1e-45; 1.5; infinity; 0]%float =
  [0x1.99999ap-4; 0x1.99999ap-3; 0x1.333334p-2; -0x1.666666p-1; 16777216;
   infinity; 0; -0; infinity; 0x1p-149; 1.5; infinity; 0]%float /\
  List.map to_float
    [0.1; 0.2; 0.3; -0.7; 16777217; 1e300; 1e-50; -1e-50;
     3.4028235677973366e38; 3.4028235677973362e38; 1e-45; 7e-46;
     7.006492321624085e-46; 2.1e-45; 1.1754942e-38; 1.1754943508222875e-38;
     5e-324; 2.2250738585072014e-308; 1.0000000596046448;
     1.0000001788139343; -16777219; 1e38; -1e-40; 123456789.123]%float =
  List.map reference
    [0.1; 0.2; 0.3; -0.7; 16777217; 1e300; 1e-50; -1e-50;
     3.4028235677973366e38; 3.4028235677973362e38; 1e-45; 7e-46;
     7.006492321624085e-46; 2.1e-45; 1.1754942e-38; 1.1754943508222875e-38;
     5e-324; 2.2250738585072014e-308; 1.0000000596046448;
     1.0000001788139343; -16777219; 1e38; -1e-40; 123456789.123]%float.
Proof. split; vm_compute; reflexivity. Qed.

End Float32.

Set Implicit Arguments.

(** ** Doubles *)

Module Double.

Definition double : Type := float.

(** [std::abs(double)] *)
Definition std_abs (x : double) : double := PrimFloat.abs x.

(** [std::max(a, b)], that is [(a < b) ? b : a] *)
Definition std_max (a b : double) : double :=
  if PrimFloat.ltb a b then b else a.

(** [std::min(a, b)], that is [(b < a) ? b : a] *)
Definition std_min (a b : double) : double :=
  if PrimFloat.ltb b a then b else a.

(** unary minus *)
Definition neg (x : double) : double := PrimFloat.opp x.

(** [a <= b] on doubles (false as soon as one side is NaN) *)
Definition leb (a b : double) : bool := PrimFloat.leb a b.

End Double.
Import Double.

(** A [std::pair<double, double>]. *)
Definition range : Type := (double * double)%type.

(** [lo <= hi], the invariant the design document asks of [vizRange]. *)
Definition ordered (r : range) : bool := leb (fst r) (snd r).

(** A pair of doubles assigned to a pair of floats: each member is
    converted. *)
Definition narrow (r : range) : range :=
  (Float32.to_float (fst r), Float32.to_float (snd r)).

(** [enum class DataType] *)
Inductive DataType : Type := STANDARD | SYMMETRIC | MAGNITUDE.

(** [std::to_string] on a [size_t] *)
Definition to_string (n : nat) : string :=
  NilEmpty.string_of_uint (Nat.to_uint n).

(** The message of the constructor's length check, lines 21-23. *)
Definition mismatchMessage (name_ : string) (nvalues npoints : nat) : string :=
  ("Point cloud scalar quantity " ++ name_ ++
   " does not have same number of values (" ++ to_string nvalues ++
   ") as point cloud size (" ++ to_string npoints ++ ")")%string.

Section Quantity.

(** *** What the sources leave open

    The colormap identifiers, the point type, the per-mode default
    colormap and the robust range estimator are declared in other
    files; the class is verified for any choice of them. *)
Variable ColorMapID : Type.
Variable vec3 : Type.
Variable defaultColorMap : DataType -> ColorMapID.
Variable robustMinMax : list double -> double -> range.

(** The base-class constructor [PointCloudQuantity(name, pointCloud_, true)]
    is also elsewhere.  It stores the name and the parent; whether the
    quantity starts enabled is left open. *)
Variable enabled0 : bool.

(** ** Data model *)

(** The owning point cloud, read only through [parent.points]. *)
Record PointCloud : Type := mkPointCloud { points : list vec3 }.

(** The GL program built by [createPointProgram]: its two attribute
    buffers, the colormap texture, the material, and the two range
    uniforms written by [draw]. *)
Record GLProgram : Type := mkGLProgram {
  a_position : list vec3;
  a_value : list double;
  t_colormap : ColorMapID;
  material : string;
  u_rangeLow : option double;
  u_rangeHigh : option double
}.

(** Modelled from the spec: the class declaration (the header) is not
    among the sources, so the members are the ones the methods use.
    [vizRange] is a pair of [float]: lines 108, 113 and 117 pass
    [&vizRange.first] and [&vizRange.second] where ImGui takes a
    [float*].  Its members are held as the doubles they widen to, and
    every assignment to it goes through [narrow].  [dataRange] is the
    pair of double of the data model of section 3.  [name], [parent]
    and [enabled] are the base-class members the methods read; [cMap]
    is the stored colormap value (read by [cMap.get()], written by
    [cMap = val]); [pointProgram] is the [unique_ptr], [None] for
    [nullptr]. *)
Record PointCloudScalarQuantity : Type := mkQuantity {
  name : string;
  parent : PointCloud;
  enabled : bool;
  dataType : DataType;
  vizRange : range;
  dataRange : range;
  cMap : ColorMapID;
  values : list double;
  pointProgram : option GLProgram
}.

(** Calls that leave the class, in the order the program makes them. *)
Inductive Event : Type :=
| ErrorReported (msg : string)
| DefaultColorMapCalled (dt : DataType)
| HistUpdateColormap (c : ColorMapID)
| HistBuildHistogram (vals : list double)
| RobustMinMaxCalled (vals : list double) (rangeEPS : double)
| RedrawRequested
| SetTransformUniforms
| SetPointCloudUniforms
| ProgramDrawn (p : GLProgram)
| ImGuiTextUnformatted (s : string)
| ImGuiNextColumn
| ImGuiText (fmt : string) (v : double).

Record World : Type := mkWorld {
  self : PointCloudScalarQuantity;
  events : list Event
}.

(** ** Methods as state transformers

    A method maps a world to a result and a new world, or to [None]
    when the C++ program has undefined behaviour (an out-of-range
    [operator[]], a null dereference). *)
Definition Method (A : Type) : Type := World -> option (A * World).

Definition ret {A} (a : A) : Method A := fun w => Some (a, w).

Definition bind {A B} (m : Method A) (k : A -> Method B) : Method B :=
  fun w => match m w with
           | Some (a, w') => k a w'
           | None => None
           end.

Definition undefined {A} : Method A := fun _ => None.

Definition this : Method PointCloudScalarQuantity :=
  fun w => Some (self w, w).

Definition update (f : PointCloudScalarQuantity -> PointCloudScalarQuantity)
  : Method unit :=
  fun w => Some (tt, mkWorld (f (self w)) (events w)).

Definition emit (e : Event) : Method unit :=
  fun w => Some (tt, mkWorld (self w) (events w ++ [e])%list).

Notation "x <- m ;; k" := (bind m (fun x => k))
  (at level 61, m at next level, right associativity).
Notation "m ;; k" := (bind m (fun _ => k))
  (at level 61, right associativity).

(** The world a method leaves behind, when it is defined. *)
Definition exec {A} (m : Method A) (w : World) : option World :=
  match m w with Some (_, w') => Some w' | None => None end.

(** Member assignments. *)
Definition set_vizRange (v : range) (q : PointCloudScalarQuantity) :=
  mkQuantity (name q) (parent q) (enabled q) (dataType q) v (dataRange q)
             (cMap q) (values q) (pointProgram q).
Definition set_dataRange (v : range) (q : PointCloudScalarQuantity) :=
  mkQuantity (name q) (parent q) (enabled q) (dataType q) (vizRange q) v
             (cMap q) (values q) (pointProgram q).
Definition set_cMap (c : ColorMapID) (q : PointCloudScalarQuantity) :=
  mkQuantity (name q) (parent q) (enabled q) (dataType q) (vizRange q)
             (dataRange q) c (values q) (pointProgram q).
Definition set_values (v : list double) (q : PointCloudScalarQuantity) :=
  mkQuantity (name q) (parent q) (enabled q) (dataType q) (vizRange q)
             (dataRange q) (cMap q) v (pointProgram q).
Definition set_pointProgram (p : option GLProgram)
           (q : PointCloudScalarQuantity) :=
  mkQuantity (name q) (parent q) (enabled q) (dataType q) (vizRange q)
             (dataRange q) (cMap q) (values q) p.

(** ** Collaborators *)

(** The process-wide "needs redraw" flag. *)
Definition requestRedraw : Method unit := emit RedrawRequested.

(** Modelled from the spec: [polyscope::error] is defined outside the
    sources; by section 7 a validation error is reported to a log sink
    and is not fatal, so the call records the message and returns. *)
Definition error (msg : string) : Method unit := emit (ErrorReported msg).

Definition callRobustMinMax (vals : list double) (rangeEPS : double)
  : Method range :=
  emit (RobustMinMaxCalled vals rangeEPS) ;;
  ret (robustMinMax vals rangeEPS).

(** ** The class *)

(** [resetMapRange()], lines 53-69.  Each branch assigns a pair of
    doubles to [vizRange]. *)
Definition resetMapRange : Method unit :=
  q <- this ;;
  match dataType q with
  | STANDARD => update (set_vizRange (narrow (dataRange q)))
  | SYMMETRIC =>
      let absRange := std_max (std_abs (fst (dataRange q)))
                              (std_abs (snd (dataRange q))) in
      update (set_vizRange (narrow (neg absRange, absRange)))
  | MAGNITUDE => update (set_vizRange (narrow (0%float, snd (dataRange q))))
  end ;;
  requestRedraw.

(** The object as the member initialisers leave it (lines 16-17):
    the base sub-object, [dataType(dataType_)] and
    [cMap(..., defaultColorMap(dataType))]; the pairs are
    value-initialised, the vector is empty, the pointer is null. *)
Definition initialised (name_ : string) (pointCloud_ : PointCloud)
           (dataType_ : DataType) : World :=
  mkWorld
    (mkQuantity name_ pointCloud_ enabled0 dataType_
                (0%float, 0%float) (0%float, 0%float)
                (defaultColorMap dataType_) [] None)
    [DefaultColorMapCalled dataType_].

(** The constructor body, lines 19-34 *)
Definition constructorBody (name_ : string) (values_ : list double)
  : Method unit :=
  q <- this ;;
  (if Nat.eqb (List.length values_) (List.length (points (parent q)))
   then ret tt
   else error (mismatchMessage name_ (List.length values_)
                               (List.length (points (parent q))))) ;;
  update (set_values values_) ;;
  q <- this ;;
  emit (HistUpdateColormap (cMap q)) ;;
  emit (HistBuildHistogram (values q)) ;;
  r <- callRobustMinMax (values q) 1e-5%float ;;
  update (set_dataRange r) ;;
  resetMapRange.

(** [PointCloudScalarQuantity(name, values_, pointCloud_, dataType_)] *)
Definition construct (name_ : string) (values_ : list double)
           (pointCloud_ : PointCloud) (dataType_ : DataType)
  : option World :=
  exec (constructorBody name_ values_)
       (initialised name_ pointCloud_ dataType_).

(** [createPointProgram()], lines 125-137 *)
Definition createPointProgram : Method unit :=
  q <- this ;;
  update (set_pointProgram
            (Some (mkGLProgram (points (parent q)) (values q) (cMap q)
                               "wax" None None))).

(** [pointProgram->...]: dereferencing a null pointer is undefined. *)
Definition withProgram {A} (k : GLProgram -> Method A) : Method A :=
  q <- this ;;
  match pointProgram q with
  | Some p => k p
  | None => undefined
  end.

Definition setUniform_rangeLow (v : double) : Method unit :=
  withProgram (fun p =>
    update (set_pointProgram
              (Some (mkGLProgram (a_position p) (a_value p) (t_colormap p)
                                 (material p) (Some v) (u_rangeHigh p))))).

Definition setUniform_rangeHigh (v : double) : Method unit :=
  withProgram (fun p =>
    update (set_pointProgram
              (Some (mkGLProgram (a_position p) (a_value p) (t_colormap p)
                                 (material p) (u_rangeLow p) (Some v))))).

(** [draw()], lines 36-51.  The range uniforms are the two floats of
    [vizRange]. *)
Definition draw : Method unit :=
  q <- this ;;
  if negb (enabled q) then ret tt
  else
    (match pointProgram q with
     | None => createPointProgram
     | Some _ => ret tt
     end) ;;
    withProgram (fun _ => emit SetTransformUniforms) ;;
    withProgram (fun _ => emit SetPointCloudUniforms) ;;
    q <- this ;;
    setUniform_rangeLow (fst (vizRange q)) ;;
    q <- this ;;
    setUniform_rangeHigh (snd (vizRange q)) ;;
    withProgram (fun p => emit (ProgramDrawn p)).

(** [geometryChanged()], line 139 *)
Definition geometryChanged : Method unit :=
  update (set_pointProgram None).

(** [buildPickUI(ind)], lines 141-146.  [values[ind]] is
    [std::vector::operator[]]: no bounds check, undefined out of range. *)
Definition buildPickUI (ind : nat) : Method unit :=
  q <- this ;;
  emit (ImGuiTextUnformatted (name q)) ;;
  emit ImGuiNextColumn ;;
  q <- this ;;
  match nth_error (values q) ind with
  | Some v => emit (ImGuiText "%g" v)
  | None => undefined
  end ;;
  emit ImGuiNextColumn.

(** [setColorMap(val)], lines 148-153 *)
Definition setColorMap (val : ColorMapID) : Method unit :=
  update (set_cMap val) ;;
  q <- this ;;
  emit (HistUpdateColormap (cMap q)) ;;
  requestRedraw.

(** [getColorMap()], line 154 *)
Definition getColorMap : Method ColorMapID :=
  q <- this ;; ret (cMap q).

(** [setMapRange(val)], lines 155-159: the pair of doubles is assigned
    to the pair of floats. *)
Definition setMapRange (val : range) : Method unit :=
  update (set_vizRange (narrow val)) ;;
  requestRedraw.

(** [getMapRange()], line 160: the floats are returned as doubles. *)
Definition getMapRange : Method range :=
  q <- this ;; ret (vizRange q).

(** [niceName()], line 162 *)
Definition niceName : Method string :=
  q <- this ;; ret (name q ++ " (scalar)")%string.

(** The colormap-selector block of [buildCustomUI()], lines 84-88.
    [buildColormapSelector(cMap.get())] receives the stored value by
    reference: when the user picks [c] it writes [c] there and returns
    true ([picked = Some c]); otherwise it returns false. *)
Definition colormapSelectorBlock (picked : option ColorMapID)
  : Method unit :=
  match picked with
  | Some c =>
      update (set_cMap c) ;;
      update (set_pointProgram None) ;;
      q <- this ;;
      emit (HistUpdateColormap (cMap q)) ;;
      c' <- getColorMap ;;
      setColorMap c'
  | None => ret tt
  end.

(** A mutator call, and the worlds a sequence of calls goes through. *)
Inductive Mutator : Type :=
| CallResetMapRange
| CallSetMapRange (val : range)
| CallSetColorMap (val : ColorMapID)
| CallGeometryChanged.

Definition call (m : Mutator) : Method unit :=
  match m with
  | CallResetMapRange => resetMapRange
  | CallSetMapRange val => setMapRange val
  | CallSetColorMap val => setColorMap val
  | CallGeometryChanged => geometryChanged
  end.

(** The worlds after each call of [ms], started in [w]. *)
Fixpoint history (ms : list Mutator) (w : World) : option (list World) :=
  match ms with
  | [] => Some []
  | m :: ms' =>
      match exec (call m) w with
      | Some w' =>
          match history ms' w' with
          | Some ws => Some (w' :: ws)
          | None => None
          end
      | None => None
      end
  end.

(** The argument of a [setMapRange] call is an ordered pair. *)
Definition orderedArgument (m : Mutator) : Prop :=
  match m with
  | CallSetMapRange val => ordered val = true
  | _ => True
  end.

(** ** Reading the event log *)

Definition isHistogramNotification (e : Event) : bool :=
  match e with
  | HistUpdateColormap _ | HistBuildHistogram _ => true
  | _ => false
  end.

Definition isRangeEstimate (e : Event) : bool :=
  match e with
  | RobustMinMaxCalled _ _ => true
  | _ => false
  end.

Fixpoint firstIndex (p : Event -> bool) (l : list Event) : option nat :=
  match l with
  | [] => None
  | e :: l' =>
      if p e then Some 0
      else match firstIndex p l' with
           | Some i => Some (S i)
           | None => None
           end
  end.

(** Both kinds of event occur, and the first [p] comes before the
    first [q]. *)
Definition happensBefore (p q : Event -> bool) (l : list Event) : bool :=
  match firstIndex p l, firstIndex q l with
  | Some i, Some j => Nat.ltb i j
  | _, _ => false
  end.

(** ** The mode table of the design document

    Section 4.3 gives the reset transform as a pure function of the
    mode and the data range; this is that table, to be compared with
    what [resetMapRange] stores. *)
Definition modeTable (dt : DataType) (dr : range) : range :=
  match dt with
  | STANDARD => dr
  | SYMMETRIC =>
      let absRange := std_max (std_abs (fst dr)) (std_abs (snd dr)) in
      (neg absRange, absRange)
  | MAGNITUDE => (0%float, snd dr)
  end.

(** The events of a constructor run, after the member initialisers:
    the error report when the lengths differ, then the histogram
    calls, the estimator call and the redraw request of the reset. *)
Definition constructorEvents (name_ : string) (values_ : list double)
           (pointCloud_ : PointCloud) (dataType_ : DataType) : list Event :=
  (if Nat.eqb (List.length values_) (List.length (points pointCloud_))
   then []
   else [ErrorReported (mismatchMessage name_ (List.length values_)
                          (List.length (points pointCloud_)))])
  ++ [HistUpdateColormap (defaultColorMap dataType_);
      HistBuildHistogram values_;
      RobustMinMaxCalled values_ 1e-5%float;
      RedrawRequested].

(** The data a quantity is built on is fit for its mode: the data
    range is ordered and, in magnitude mode, its upper end is not
    negative. *)
Definition validData (dt : DataType) (dr : range) : Prop :=
  ordered dr = true /\ (dt = MAGNITUDE -> leb 0%float (snd dr) = true).

(** ** Facts about doubles *)

Lemma leb_not_nan (a b : double) :
  leb a b = true -> Prim2SF a <> S754_nan /\ Prim2SF b <> S754_nan.
Proof.
  unfold leb. rewrite leb_spec. unfold SFleb.
  destruct (Prim2SF a), (Prim2SF b); simpl; intros H;
    try discriminate H; split; discriminate.
Qed.

(** [-|x| <= |x|] as soon as [x] is a number. *)
Lemma neg_abs_le_abs (x : double) :
  Prim2SF x <> S754_nan -> leb (neg (std_abs x)) (std_abs x) = true.
Proof.
  unfold leb, neg, std_abs. rewrite leb_spec, opp_spec, abs_spec.
  unfold SFleb.
  destruct (Prim2SF x); simpl; intros H; try reflexivity.
  now elim H.
Qed.

Lemma std_max_cases (a b : double) : std_max a b = a \/ std_max a b = b.
Proof. unfold std_max. destruct (PrimFloat.ltb a b); auto. Qed.

Lemma SFcompare_refl (x : spec_float) :
  x <> S754_nan -> SFcompare x x = Some Eq.
Proof.
  destruct x as [s|s| |s m e]; simpl; intros H.
  - reflexivity.
  - now destruct s.
  - now elim H.
  - rewrite Z.compare_refl.
    change (PosDef.Pos.compare_cont Eq m m) with (Pos.compare m m).
    rewrite Pos.compare_refl. now destruct s.
Qed.

Lemma SFcompare_not_lt (x y : spec_float) :
  x <> S754_nan -> y <> S754_nan ->
  SFltb x y = false -> SFleb y x = true.
Proof.
  unfold SFltb, SFleb.
  destruct x as [sx|sx| |sx mx ex], y as [sy|sy| |sy my ey]; simpl;
    intros Hx Hy; try (now elim Hx); try (now elim Hy);
    try (destruct sx); try (destruct sy); simpl; try easy.
  - rewrite (Z.compare_antisym ex ey).
    destruct (Z.compare ex ey); simpl; try easy.
    change (PosDef.Pos.compare_cont Eq my mx) with (Pos.compare my mx).
    change (PosDef.Pos.compare_cont Eq mx my) with (Pos.compare mx my).
    rewrite (Pos.compare_antisym mx my).
    now destruct (Pos.compare mx my).
  - rewrite (Z.compare_antisym ex ey).
    destruct (Z.compare ex ey); simpl; try easy.
    change (PosDef.Pos.compare_cont Eq my mx) with (Pos.compare my mx).
    change (PosDef.Pos.compare_cont Eq mx my) with (Pos.compare mx my).
    rewrite (Pos.compare_antisym mx my).
    now destruct (Pos.compare mx my).
Qed.

Lemma is_nan_Prim2SF (x : double) :
  PrimFloat.is_nan x = true <-> Prim2SF x = S754_nan.
Proof.
  unfold PrimFloat.is_nan. rewrite FloatAxioms.eqb_spec. unfold SFeqb.
  destruct (Prim2SF x) as [s|s| |s m e] eqn:E.
  - now rewrite SFcompare_refl.
  - now rewrite SFcompare_refl.
  - now cbn.
  - now rewrite SFcompare_refl.
Qed.

Lemma SFabs_not_nan (x : spec_float) : x <> S754_nan -> SFabs x <> S754_nan.
Proof. now destruct x. Qed.

(** Conversion to [float] keeps the order of doubles. *)
Lemma narrow_ordered (r : range) : ordered r = true -> ordered (narrow r) = true.
Proof. unfold ordered, narrow, leb. cbn [fst snd]. apply Float32.to_float_mono. Qed.

Lemma to_float_zero : Float32.to_float 0%float = 0%float.
Proof. vm_compute. reflexivity. Qed.

Lemma to_float_neg (x : double) :
  Float32.to_float (neg x) = neg (Float32.to_float x).
Proof. apply Float32.to_float_opp. Qed.

(** What [narrow] returns is a pair of floats: converting it again
    changes nothing. *)
Lemma narrow_idem (r : range) : narrow (narrow r) = narrow r.
Proof. unfold narrow. cbn [fst snd]. now rewrite !Float32.to_float_idem. Qed.

(** On numbers [std::max] is the maximum: it is one of the two arguments
    and both are below it. *)
Lemma std_max_is_maximum (a b : double) :
  Prim2SF a <> S754_nan -> Prim2SF b <> S754_nan ->
  leb a (std_max a b) = true /\ leb b (std_max a b) = true.
Proof.
  intros Ha Hb. unfold std_max, leb.
  destruct (PrimFloat.ltb a b) eqn:E; rewrite !leb_spec; rewrite ltb_spec in E.
  - split.
    + unfold SFltb in E. unfold SFleb.
      now destruct (SFcompare (Prim2SF a) (Prim2SF b)) as [[]|].
    + unfold SFleb. now rewrite SFcompare_refl.
  - split.
    + unfold SFleb. now rewrite SFcompare_refl.
    + now apply SFcompare_not_lt.
Qed.

(** ** What each method computes *)

Lemma resetMapRange_run (w : World) :
  resetMapRange w =
  Some (tt, mkWorld (set_vizRange
                       (narrow (modeTable (dataType (self w))
                                          (dataRange (self w)))) (self w))
                    (events w ++ [RedrawRequested])).
Proof.
  unfold resetMapRange, bind, this, update, requestRedraw, emit, modeTable.
  now destruct (dataType (self w)).
Qed.

Lemma setMapRange_run (val : range) (w : World) :
  setMapRange val w =
  Some (tt, mkWorld (set_vizRange (narrow val) (self w))
                    (events w ++ [RedrawRequested])).
Proof. reflexivity. Qed.

Lemma setColorMap_run (val : ColorMapID) (w : World) :
  setColorMap val w =
  Some (tt, mkWorld (set_cMap val (self w))
                    (events w ++ [HistUpdateColormap val; RedrawRequested])).
Proof.
  unfold setColorMap, requestRedraw, bind, update, this; simpl.
  unfold emit; simpl. now rewrite <- app_assoc.
Qed.

Lemma geometryChanged_run (w : World) :
  geometryChanged w =
  Some (tt, mkWorld (set_pointProgram None (self w)) (events w)).
Proof. reflexivity. Qed.

Lemma construct_run (name_ : string) (values_ : list double)
      (pointCloud_ : PointCloud) (dataType_ : DataType) :
  construct name_ values_ pointCloud_ dataType_ =
  Some (mkWorld
          (mkQuantity name_ pointCloud_ enabled0 dataType_
             (narrow (modeTable dataType_ (robustMinMax values_ 1e-5%float)))
             (robustMinMax values_ 1e-5%float)
             (defaultColorMap dataType_) values_ None)
          (DefaultColorMapCalled dataType_
             :: constructorEvents name_ values_ pointCloud_ dataType_)).
Proof.
  unfold construct, exec, constructorBody, initialised, constructorEvents.
  unfold bind at 1. unfold this at 1. cbn [self parent points].
  destruct (Nat.eqb (List.length values_) (List.length (points pointCloud_)));
    unfold bind, ret, error, emit, update, this, callRobustMinMax;
    cbn -[modeTable resetMapRange];
    rewrite resetMapRange_run; reflexivity.
Qed.

(** ** The reset transform *)

(** C1, as the code has it: for every mode and every data range,
    [resetMapRange] stores the range of the mode table converted to
    [float]: [((float) lo, (float) hi)] for STANDARD; for SYMMETRIC
    [((float) -m, (float) m)], a pair symmetric about zero, where [m] is
    [|lo|] or [|hi|] and, unless an end of the data range is NaN, lies
    above both; [(0, (float) hi)] for MAGNITUDE. *)
Theorem resetMapRange_mode_table (w : World) :
  exists w',
    resetMapRange w = Some (tt, w') /\
    vizRange (self w') =
      narrow (modeTable (dataType (self w)) (dataRange (self w))) /\
    match dataType (self w) with
    | STANDARD => vizRange (self w') = narrow (dataRange (self w))
    | SYMMETRIC =>
        let lo := fst (dataRange (self w)) in
        let hi := snd (dataRange (self w)) in
        exists m,
          vizRange (self w') = (Float32.to_float (neg m), Float32.to_float m) /\
          fst (vizRange (self w')) = neg (snd (vizRange (self w'))) /\
          (m = std_abs lo \/ m = std_abs hi) /\
          (PrimFloat.is_nan lo = true \/ PrimFloat.is_nan hi = true \/
           (leb (std_abs lo) m = true /\ leb (std_abs hi) m = true))
    | MAGNITUDE =>
        vizRange (self w') =
          (0%float, Float32.to_float (snd (dataRange (self w))))
    end.
Proof.
  rewrite resetMapRange_run. eexists; split; [reflexivity|].
  cbn [self vizRange set_vizRange]. split; [reflexivity|].
  destruct (dataType (self w)); cbn [modeTable].
  - reflexivity.
  - cbn zeta.
    set (lo := fst (dataRange (self w))). set (hi := snd (dataRange (self w))).
    exists (std_max (std_abs lo) (std_abs hi)). unfold narrow; cbn [fst snd].
    split; [reflexivity|]. split; [apply to_float_neg|].
    split; [apply std_max_cases|].
    destruct (PrimFloat.is_nan lo) eqn:Nlo; [now left|].
    destruct (PrimFloat.is_nan hi) eqn:Nhi; [now right; left|].
    right; right.
    apply std_max_is_maximum; unfold std_abs; rewrite abs_spec;
      apply SFabs_not_nan; intros E; apply is_nan_Prim2SF in E; congruence.
  - unfold narrow; cbn [fst snd]. now rewrite to_float_zero.
Qed.

(** C7: [resetMapRange] is idempotent: a second call in a row leaves
    the same [vizRange] (indeed the same object) as the first. *)
Theorem resetMapRange_idempotent (w : World) :
  exists w1 w2,
    resetMapRange w = Some (tt, w1) /\
    resetMapRange w1 = Some (tt, w2) /\
    vizRange (self w2) = vizRange (self w1) /\
    self w2 = self w1.
Proof.
  do 2 eexists. split; [apply resetMapRange_run|].
  split; [apply resetMapRange_run|].
  split; reflexivity.
Qed.

(** ** Accessors and mutators *)

(** C6, as the code has it: [setMapRange((a, b))] followed by
    [getMapRange()] returns [((float) a, (float) b)], the pair converted
    to [float], for every pair; nothing is clamped and the order of the
    pair is not looked at.  The result is exactly [(a, b)] when and only
    when [a] and [b] are [float] values. *)
Theorem setMapRange_getMapRange (a b : double) (w : World) :
  exists w',
    setMapRange (a, b) w = Some (tt, w') /\
    getMapRange w' =
      Some ((Float32.to_float a, Float32.to_float b), w') /\
    (getMapRange w' = Some ((a, b), w') <->
     Float32.to_float a = a /\ Float32.to_float b = b).
Proof.
  eexists. split; [apply setMapRange_run|]. split; [reflexivity|].
  unfold getMapRange, bind, this, ret, narrow.
  cbn [self vizRange set_vizRange fst snd].
  split.
  - intros H. injection H as Ha Hb. split; assumption.
  - intros [Ha Hb]. rewrite Ha, Hb. reflexivity.
Qed.

(** C8: [setColorMap(id)] followed by [getColorMap()] returns exactly
    [id], for every identifier: the setter never rejects one. *)
Theorem setColorMap_getColorMap (id : ColorMapID) (w : World) :
  exists w',
    setColorMap id w = Some (tt, w') /\
    getColorMap w' = Some (id, w').
Proof.
  eexists; split; [apply setColorMap_run|reflexivity].
Qed.

(** The program [createPointProgram] builds for [q], with the range
    uniforms [draw] then writes. *)
Definition drawnProgram (q : PointCloudScalarQuantity) : GLProgram :=
  mkGLProgram (points (parent q)) (values q) (cMap q) "wax"
              (Some (fst (vizRange q))) (Some (snd (vizRange q))).

Lemma draw_without_program (w : World) :
  pointProgram (self w) = None ->
  draw w =
  Some (tt,
        if enabled (self w)
        then mkWorld (set_pointProgram (Some (drawnProgram (self w))) (self w))
                     (events w ++ [SetTransformUniforms; SetPointCloudUniforms;
                                   ProgramDrawn (drawnProgram (self w))])
        else w).
Proof.
  intros H. unfold draw. unfold bind at 1, this at 1.
  destruct (enabled (self w)); cbn [negb]; [|reflexivity].
  rewrite H. unfold createPointProgram, setUniform_rangeLow,
    setUniform_rangeHigh, withProgram, bind, this, update, emit.
  cbn. rewrite <- !app_assoc. reflexivity.
Qed.

(** C9: [geometryChanged()] drops the draw program, so that the next
    [draw()] of an enabled quantity builds a new one, and leaves
    [values], [dataRange] and [vizRange] as they were. *)
Theorem geometryChanged_invalidates_program (w : World) :
  exists w',
    geometryChanged w = Some (tt, w') /\
    pointProgram (self w') = None /\
    values (self w') = values (self w) /\
    dataRange (self w') = dataRange (self w) /\
    vizRange (self w') = vizRange (self w) /\
    exists w'',
      draw w' = Some (tt, w'') /\
      pointProgram (self w'') =
        if enabled (self w) then Some (drawnProgram (self w)) else None.
Proof.
  eexists. split; [apply geometryChanged_run|].
  repeat (split; [reflexivity|]).
  eexists. split; [apply draw_without_program; reflexivity|].
  cbn. destruct (enabled (self w)); reflexivity.
Qed.

(** ** The constructor *)

(** C4, as the code has it: the default colormap is picked first (a
    member initialiser), a length mismatch is reported, the values are
    copied, the histogram is given the colormap and the copied values,
    and only then the estimator runs with [1e-5] and the reset
    transform derives [vizRange] (the mode table's range, converted to
    [float]) and asks for a redraw. *)
Theorem construct_order (name_ : string) (values_ : list double)
        (pointCloud_ : PointCloud) (dataType_ : DataType) :
  exists w,
    construct name_ values_ pointCloud_ dataType_ = Some w /\
    events w =
      DefaultColorMapCalled dataType_
      :: (if Nat.eqb (List.length values_) (List.length (points pointCloud_))
          then []
          else [ErrorReported
                  (mismatchMessage name_ (List.length values_)
                     (List.length (points pointCloud_)))])
      ++ [HistUpdateColormap (defaultColorMap dataType_);
          HistBuildHistogram values_;
          RobustMinMaxCalled values_ 1e-5%float;
          RedrawRequested] /\
    happensBefore isHistogramNotification isRangeEstimate (events w) = true /\
    values (self w) = values_ /\
    cMap (self w) = defaultColorMap dataType_ /\
    dataRange (self w) = robustMinMax values_ 1e-5%float /\
    vizRange (self w) = narrow (modeTable dataType_ (dataRange (self w))).
Proof.
  rewrite construct_run. eexists. split; [reflexivity|].
  split; [reflexivity|].
  split; [|repeat split].
  cbn [events]. unfold constructorEvents.
  destruct (Nat.eqb (List.length values_) (List.length (points pointCloud_)));
    reflexivity.
Qed.

(** C5: when the number of values differs from the number of points,
    the constructor reports the mismatch and still completes; the
    stored values are the ones given, so their length is the given
    length and not the point count. *)
Theorem construct_length_mismatch (name_ : string) (values_ : list double)
        (pointCloud_ : PointCloud) (dataType_ : DataType) :
  List.length values_ <> List.length (points pointCloud_) ->
  exists w,
    construct name_ values_ pointCloud_ dataType_ = Some w /\
    In (ErrorReported (mismatchMessage name_ (List.length values_)
                         (List.length (points pointCloud_))))
       (events w) /\
    values (self w) = values_ /\
    List.length (values (self w)) = List.length values_ /\
    List.length (values (self w)) <> List.length (points (parent (self w))).
Proof.
  intros H. rewrite construct_run. eexists. split; [reflexivity|].
  cbn [self events values parent]. unfold constructorEvents.
  apply Nat.eqb_neq in H. rewrite H. apply Nat.eqb_neq in H.
  split; [right; left; reflexivity|]. auto.
Qed.

(** ** The range invariant *)

(** What every mutator keeps: the data stay fit for the mode, and
    [vizRange] is ordered. *)
Definition invariant (q : PointCloudScalarQuantity) : Prop :=
  validData (dataType q) (dataRange q) /\ ordered (vizRange q) = true.

Lemma modeTable_ordered (dt : DataType) (dr : range) :
  validData dt dr -> ordered (modeTable dt dr) = true.
Proof.
  intros [Ho Hm]. destruct dt; unfold ordered; cbn [modeTable fst snd].
  - exact Ho.
  - destruct (@leb_not_nan _ _ Ho) as [Ha Hb].
    destruct (std_max_cases (std_abs (fst dr)) (std_abs (snd dr))) as [E|E];
      rewrite E; apply neg_abs_le_abs; assumption.
  - now apply Hm.
Qed.

Lemma call_preserves (m : Mutator) (w : World) :
  orderedArgument m -> invariant (self w) ->
  exists w', exec (call m) w = Some w' /\ invariant (self w').
Proof.
  intros Hm [Hd Hv]. unfold exec.
  destruct m as [|val|val|]; cbn [call orderedArgument] in *.
  - rewrite resetMapRange_run. eexists; split; [reflexivity|].
    split; cbn [self vizRange dataType dataRange set_vizRange]; [exact Hd|].
    now apply narrow_ordered, modeTable_ordered.
  - rewrite setMapRange_run. eexists; split; [reflexivity|].
    split; cbn [self vizRange dataType dataRange set_vizRange]; [exact Hd|].
    now apply narrow_ordered.
  - rewrite setColorMap_run. eexists; split; [reflexivity|].
    split; cbn; assumption.
  - rewrite geometryChanged_run. eexists; split; [reflexivity|].
    split; cbn; assumption.
Qed.

Lemma history_preserves (ms : list Mutator) :
  forall w,
    Forall orderedArgument ms -> invariant (self w) ->
    exists ws,
      history ms w = Some ws /\
      Forall (fun w' => ordered (vizRange (self w')) = true) ws.
Proof.
  induction ms as [|m ms IH]; intros w Hms Hw.
  - exists []. split; [reflexivity|constructor].
  - inversion Hms as [|? ? Hm Hrest]; subst.
    destruct (@call_preserves m w Hm Hw) as [w' [E Hw']].
    destruct (IH w' Hrest Hw') as [ws [Ews Hws]].
    exists (w' :: ws). cbn [history]. rewrite E, Ews.
    split; [reflexivity|]. constructor; [apply Hw'|exact Hws].
Qed.

(** C2, as the code has it: when the estimated data range is ordered
    and, in MAGNITUDE mode, its upper end is not negative, and every
    [setMapRange] call is given an ordered pair, then
    [vizRange.lo <= vizRange.hi] holds after construction and after
    every call of [resetMapRange], [setMapRange], [setColorMap] and
    [geometryChanged]. *)
Theorem vizRange_ordered_invariant (name_ : string) (values_ : list double)
        (pointCloud_ : PointCloud) (dataType_ : DataType)
        (ms : list Mutator) :
  validData dataType_ (robustMinMax values_ 1e-5%float) ->
  Forall orderedArgument ms ->
  exists w0 ws,
    construct name_ values_ pointCloud_ dataType_ = Some w0 /\
    history ms w0 = Some ws /\
    Forall (fun w => ordered (vizRange (self w)) = true) (w0 :: ws).
Proof.
  intros Hd Hms. rewrite construct_run.
  eexists. 
  edestruct history_preserves as [ws [E Hws]]; [exact Hms| |].
  2:{ exists ws. split; [reflexivity|]. split; [exact E|].
      constructor; [|exact Hws]. cbn [self vizRange].
      now apply narrow_ordered, modeTable_ordered. }
  split; cbn [self vizRange dataType dataRange];
    [exact Hd|now apply narrow_ordered, modeTable_ordered].
Qed.

(** ** The draw program *)

(** [setColorMap] stores the identifier and notifies the histogram;
    it never touches [pointProgram]. *)
Lemma setColorMap_keeps_program (val : ColorMapID) (w : World) :
  exists w',
    setColorMap val w = Some (tt, w') /\
    cMap (self w') = val /\
    pointProgram (self w') = pointProgram (self w).
Proof. eexists. split; [apply setColorMap_run|]. split; reflexivity. Qed.

(** A range change goes through a uniform: the program is kept. *)
Lemma setMapRange_keeps_program (val : range) (w : World) :
  exists w',
    setMapRange val w = Some (tt, w') /\
    pointProgram (self w') = pointProgram (self w).
Proof. eexists. split; reflexivity. Qed.

(** The selector block of the UI drops the program when the user
    picks a colormap. *)
Lemma colormapSelectorBlock_drops_program (c : ColorMapID) (w : World) :
  exists w',
    colormapSelectorBlock (Some c) w = Some (tt, w') /\
    cMap (self w') = c /\
    pointProgram (self w') = None.
Proof.
  eexists. split; [reflexivity|]. split; reflexivity.
Qed.

(** ** The pick readout *)

(** [buildPickUI(ind)] is defined exactly when [ind] is an index of
    the stored values. *)
Lemma buildPickUI_defined_iff (ind : nat) (w : World) :
  (exists w', buildPickUI ind w = Some (tt, w')) <->
  ind < List.length (values (self w)).
Proof.
  rewrite <- nth_error_Some.
  unfold buildPickUI, bind, this, emit, undefined. cbn.
  destruct (nth_error (values (self w)) ind) as [v|].
  - split; [discriminate|]. intros _. eexists. reflexivity.
  - split; [intros [w' H]; discriminate H|]. intros H. now elim H.
Qed.

(** * Further properties of the class *)

(** ** More facts about doubles *)

(** [x <= |x|] *)
Lemma SFleb_abs (x : spec_float) : x <> S754_nan -> SFleb x (SFabs x) = true.
Proof.
  unfold SFleb. destruct x as [s|s| |s m e]; cbn; intros H; try easy.
  - now destruct s.
  - destruct s; [reflexivity|].
    rewrite Z.compare_refl.
    change (PosDef.Pos.compare_cont Eq m m) with (Pos.compare m m).
    now rewrite Pos.compare_refl.
Qed.

(** [-|x| <= x] *)
Lemma SFleb_opp_abs (x : spec_float) :
  x <> S754_nan -> SFleb (SFopp (SFabs x)) x = true.
Proof.
  unfold SFleb. destruct x as [s|s| |s m e]; cbn; intros H; try easy.
  - now destruct s.
  - destruct s; [|reflexivity].
    rewrite Z.compare_refl.
    change (PosDef.Pos.compare_cont Eq m m) with (Pos.compare m m).
    now rewrite Pos.compare_refl.
Qed.

(** [|x| <= y] gives [x <= y]. *)
Lemma SFleb_abs_below (x y : spec_float) :
  SFleb (SFabs x) y = true -> SFleb x y = true.
Proof.
  unfold SFleb.
  destruct x as [sx|sx| |sx mx ex], y as [sy|sy| |sy my ey]; cbn;
    try easy; destruct sx, sy; cbn; easy.
Qed.

(** [|x| < y] gives [-y <= x]. *)
Lemma SFltb_abs_opp (x y : spec_float) :
  SFltb (SFabs x) y = true -> SFleb (SFopp y) x = true.
Proof.
  unfold SFltb, SFleb.
  destruct x as [sx|sx| |sx mx ex], y as [sy|sy| |sy my ey]; cbn;
    try easy; destruct sx, sy; cbn; try easy.
  rewrite (Z.compare_antisym ex ey).
  destruct (Z.compare ex ey); cbn; try easy.
  change (PosDef.Pos.compare_cont Eq my mx) with (Pos.compare my mx).
  change (PosDef.Pos.compare_cont Eq mx my) with (Pos.compare mx my).
  rewrite (Pos.compare_antisym mx my).
  now destruct (Pos.compare mx my).
Qed.

(** The symmetric bound [m = max(|lo|, |hi|)] lies above [hi] and its
    opposite below [lo], for numbers [lo] and [hi]. *)
Lemma symmetric_bound_encloses (lo hi : double) :
  Prim2SF lo <> S754_nan -> Prim2SF hi <> S754_nan ->
  leb (neg (std_max (std_abs lo) (std_abs hi))) lo = true /\
  leb hi (std_max (std_abs lo) (std_abs hi)) = true.
Proof.
  intros Hlo Hhi. unfold leb, neg, std_max, std_abs.
  destruct (PrimFloat.ltb (abs lo) (abs hi)) eqn:E;
    rewrite ltb_spec, !abs_spec in E;
    rewrite !leb_spec, opp_spec, !abs_spec.
  - split; [now apply SFltb_abs_opp|now apply SFleb_abs].
  - split; [now apply SFleb_opp_abs|].
    apply SFleb_abs_below.
    apply SFcompare_not_lt; auto using SFabs_not_nan.
Qed.

(** The symmetric bound is NaN exactly when [lo] is: [std::max] keeps
    its first argument when the comparison with a NaN fails. *)
Lemma symmetric_bound_nan (lo hi : double) :
  Prim2SF (std_max (std_abs lo) (std_abs hi)) = S754_nan <->
  Prim2SF lo = S754_nan.
Proof.
  unfold std_max, std_abs.
  destruct (PrimFloat.ltb (abs lo) (abs hi)) eqn:E;
    rewrite ltb_spec, !abs_spec in E; rewrite abs_spec.
  - unfold SFltb in E.
    destruct (Prim2SF lo) as [s|s| |s m e], (Prim2SF hi) as [s'|s'| |s' m' e'];
      cbn in *; try discriminate E; split; discriminate.
  - destruct (Prim2SF lo); cbn; split; congruence.
Qed.

(** ** The reset transform on the data range *)

(** X1: In SYMMETRIC mode the range [resetMapRange] stores is symmetric
    about zero and encloses an ordered data range converted to [float]:
    [viz.lo <= (float) data.lo] and [(float) data.hi <= viz.hi]. *)
Theorem resetMapRange_symmetric_encloses (w : World) :
  dataType (self w) = SYMMETRIC ->
  ordered (dataRange (self w)) = true ->
  exists w',
    resetMapRange w = Some (tt, w') /\
    fst (vizRange (self w')) = neg (snd (vizRange (self w'))) /\
    leb (fst (vizRange (self w')))
        (Float32.to_float (fst (dataRange (self w)))) = true /\
    leb (Float32.to_float (snd (dataRange (self w))))
        (snd (vizRange (self w'))) = true.
Proof.
  intros Hs Ho. rewrite resetMapRange_run. eexists. split; [reflexivity|].
  cbn [self vizRange set_vizRange]. rewrite Hs.
  unfold narrow. cbn [modeTable fst snd].
  destruct (@leb_not_nan _ _ Ho) as [Hlo Hhi].
  split; [apply to_float_neg|].
  destruct (symmetric_bound_encloses _ _ Hlo Hhi) as [H1 H2].
  split; apply Float32.to_float_mono; assumption.
Qed.

(** X2: In SYMMETRIC mode the range [resetMapRange] stores is ordered
    exactly when [dataRange.first] is not NaN: a NaN in
    [dataRange.second] alone is dropped by [std::max]. *)
Theorem resetMapRange_ordered_iff (w : World) :
  dataType (self w) = SYMMETRIC ->
  exists w',
    resetMapRange w = Some (tt, w') /\
    (ordered (vizRange (self w')) = true <->
     PrimFloat.is_nan (fst (dataRange (self w))) = false).
Proof.
  intros Hs. rewrite resetMapRange_run. eexists. split; [reflexivity|].
  cbn [self vizRange set_vizRange]. rewrite Hs.
  unfold ordered, narrow; cbn [modeTable fst snd].
  set (lo := fst (dataRange (self w))). set (hi := snd (dataRange (self w))).
  pose proof (symmetric_bound_nan lo hi) as Hn.
  pose proof (is_nan_Prim2SF lo) as Hi.
  split.
  - intros H. apply leb_not_nan in H. destruct H as [_ H].
    destruct (PrimFloat.is_nan lo); [|reflexivity].
    elim H. apply Float32.to_float_nan, Hn. now apply Hi.
  - intros H.
    assert (Hm : Prim2SF (std_max (std_abs lo) (std_abs hi)) <> S754_nan).
    { intros E. apply Hn, Hi in E. congruence. }
    apply Float32.to_float_mono.
    destruct (std_max_cases (std_abs lo) (std_abs hi)) as [E|E];
      rewrite E in *; apply neg_abs_le_abs; intros F; apply Hm;
      unfold std_abs; rewrite abs_spec, F; reflexivity.
Qed.

(** ** Drawing *)

(** A program with its two range uniforms written. *)
Definition withUniforms (p : GLProgram) (r : range) : GLProgram :=
  mkGLProgram (a_position p) (a_value p) (t_colormap p) (material p)
              (Some (fst r)) (Some (snd r)).

Lemma draw_with_program (p : GLProgram) (w : World) :
  pointProgram (self w) = Some p ->
  draw w =
  Some (tt,
        if enabled (self w)
        then mkWorld (set_pointProgram
                        (Some (withUniforms p (vizRange (self w)))) (self w))
                     (events w ++ [SetTransformUniforms; SetPointCloudUniforms;
                                   ProgramDrawn
                                     (withUniforms p (vizRange (self w)))])
        else w).
Proof.
  destruct w as [q ev]; destruct q as [n pa en dt vr dr cm vs pp].
  cbn [self pointProgram enabled]. intros H; subst pp.
  destruct en; [|reflexivity].
  unfold draw, setUniform_rangeLow, setUniform_rangeHigh, withProgram,
    bind, this, update, emit, ret.
  cbn. rewrite <- !app_assoc. reflexivity.
Qed.

(** The program [draw] works on: the one in place, or a fresh one. *)
Definition programToDraw (q : PointCloudScalarQuantity) : GLProgram :=
  match pointProgram q with
  | Some p => withUniforms p (vizRange q)
  | None => drawnProgram q
  end.

Lemma draw_run (w : World) :
  draw w =
  Some (tt,
        if enabled (self w)
        then mkWorld (set_pointProgram (Some (programToDraw (self w))) (self w))
                     (events w ++ [SetTransformUniforms; SetPointCloudUniforms;
                                   ProgramDrawn (programToDraw (self w))])
        else w).
Proof.
  unfold programToDraw.
  destruct (pointProgram (self w)) as [p|] eqn:E.
  - now apply draw_with_program.
  - now apply draw_without_program.
Qed.

(** X3: [draw()] is always defined: the program is built before it is
    dereferenced.  A disabled quantity is left as it is and nothing is
    emitted; an enabled one ends with a program whose range uniforms are
    the current [vizRange], and that program is the one drawn. *)
Theorem draw_defined (w : World) :
  exists w',
    draw w = Some (tt, w') /\
    if enabled (self w)
    then exists p,
        self w' = set_pointProgram (Some p) (self w) /\
        u_rangeLow p = Some (fst (vizRange (self w))) /\
        u_rangeHigh p = Some (snd (vizRange (self w))) /\
        events w' = (events w ++ [SetTransformUniforms; SetPointCloudUniforms;
                                  ProgramDrawn p])%list
    else w' = w.
Proof.
  rewrite draw_run. eexists. split; [reflexivity|].
  destruct (enabled (self w)); [|reflexivity].
  exists (programToDraw (self w)). cbn [self events].
  repeat split; unfold programToDraw;
    destruct (pointProgram (self w)); reflexivity.
Qed.


Lemma last_of_three (A : Type) (l : list A) (a b c d : A) :
  last (l ++ [a; b; c]) d = c.
Proof.
  replace (l ++ [a; b; c])%list with ((l ++ [a; b]) ++ [c])%list
    by (rewrite <- app_assoc; reflexivity).
  apply last_last.
Qed.

(** X5: A range change reaches the picture without a rebuild: with a
    program in place, [setMapRange(r)] then [draw()] keeps the program's
    buffers, texture and material and writes [r], converted to [float],
    to its uniforms. *)
Theorem setMapRange_then_draw (p : GLProgram) (r : range) (w : World) :
  pointProgram (self w) = Some p ->
  enabled (self w) = true ->
  exists w1 w2,
    setMapRange r w = Some (tt, w1) /\
    draw w1 = Some (tt, w2) /\
    pointProgram (self w2) = Some (withUniforms p (narrow r)) /\
    last (events w2) RedrawRequested =
    ProgramDrawn (withUniforms p (narrow r)).
Proof.
  intros Hp He. do 2 eexists. split; [apply setMapRange_run|].
  split; [apply draw_run|]. cbn [self enabled set_vizRange].
  rewrite He. unfold programToDraw. cbn. rewrite Hp. split; [reflexivity|].
  apply last_of_three.
Qed.

(** ** The constructor, continued *)

(** X6: The constructor builds no program; the first [draw()] of an enabled
    quantity builds it from the copied values, the parent's points and
    the default colormap of the mode, and writes the reset range (the
    mode table's range converted to [float]) to its uniforms.  A
    quantity that starts disabled stays without program. *)
Theorem construct_then_draw (name_ : string) (values_ : list double)
        (pointCloud_ : PointCloud) (dataType_ : DataType) :
  exists w0 w1,
    construct name_ values_ pointCloud_ dataType_ = Some w0 /\
    pointProgram (self w0) = None /\
    draw w0 = Some (tt, w1) /\
    pointProgram (self w1) =
      if enabled0
      then Some (mkGLProgram
                   (points pointCloud_) values_ (defaultColorMap dataType_)
                   "wax"
                 (Some (Float32.to_float
                          (fst (modeTable dataType_
                                  (robustMinMax values_ 1e-5%float)))))
                 (Some (Float32.to_float
                          (snd (modeTable dataType_
                                  (robustMinMax values_ 1e-5%float))))))
      else None.
Proof.
  do 2 eexists. split; [apply construct_run|]. split; [reflexivity|].
  split; [apply draw_run|].
  cbn [self enabled]. destruct enabled0; reflexivity.
Qed.

(** X7: After a construction with mismatched lengths, the program the first
    [draw()] builds has attribute buffers of different lengths: one
    value per given value, one position per point. *)
Theorem mismatch_reaches_the_program (name_ : string) (values_ : list double)
        (pointCloud_ : PointCloud) (dataType_ : DataType) :
  List.length values_ <> List.length (points pointCloud_) ->
  enabled0 = true ->
  exists w0 w1 p,
    construct name_ values_ pointCloud_ dataType_ = Some w0 /\
    draw w0 = Some (tt, w1) /\
    pointProgram (self w1) = Some p /\
    List.length (a_value p) = List.length values_ /\
    List.length (a_position p) = List.length (points pointCloud_) /\
    List.length (a_value p) <> List.length (a_position p).
Proof.
  intros Hm He. do 3 eexists.
  split; [apply construct_run|]. split; [apply draw_run|].
  cbn [self enabled]. rewrite He. cbn. auto.
Qed.

(** X8: The constructor reports an error exactly when the number of values
    differs from the number of points; with equal lengths the log holds
    no error at all. *)
Theorem construct_reports_iff_mismatch (name_ : string)
        (values_ : list double) (pointCloud_ : PointCloud)
        (dataType_ : DataType) :
  exists w,
    construct name_ values_ pointCloud_ dataType_ = Some w /\
    ((exists msg, In (ErrorReported msg) (events w)) <->
     List.length values_ <> List.length (points pointCloud_)).
Proof.
  rewrite construct_run. eexists. split; [reflexivity|].
  cbn [events]. unfold constructorEvents.
  destruct (Nat.eqb (List.length values_) (List.length (points pointCloud_)))
    eqn:E.
  - apply Nat.eqb_eq in E. split; [|intros H; now elim H].
    intros [msg H]. cbn in H.
    repeat (destruct H as [H|H]; [discriminate H|]). contradiction.
  - apply Nat.eqb_neq in E. split; [intros _; exact E|].
    intros _. eexists. right. left. reflexivity.
Qed.

(** ** Every public call *)

Inductive Operation : Type :=
| Mutate (m : Mutator)
| Draw
| PickUI (ind : nat)
| SelectColormap (picked : option ColorMapID)
| ReadColorMap
| ReadMapRange
| ReadNiceName.

Definition perform (op : Operation) : Method unit :=
  match op with
  | Mutate m => call m
  | Draw => draw
  | PickUI ind => buildPickUI ind
  | SelectColormap picked => colormapSelectorBlock picked
  | ReadColorMap => getColorMap ;; ret tt
  | ReadMapRange => getMapRange ;; ret tt
  | ReadNiceName => niceName ;; ret tt
  end.

(** The world after a sequence of calls, when all of them are defined. *)
Fixpoint performAll (ops : list Operation) (w : World) : option World :=
  match ops with
  | [] => Some w
  | op :: ops' =>
      match exec (perform op) w with
      | Some w' => performAll ops' w'
      | None => None
      end
  end.

(** The members no method assigns after construction. *)
Definition sameData (q q' : PointCloudScalarQuantity) : Prop :=
  name q' = name q /\ parent q' = parent q /\ enabled q' = enabled q /\
  dataType q' = dataType q /\ dataRange q' = dataRange q /\
  values q' = values q.

Lemma sameData_refl (q : PointCloudScalarQuantity) : sameData q q.
Proof. repeat split. Qed.

Lemma sameData_trans (q1 q2 q3 : PointCloudScalarQuantity) :
  sameData q1 q2 -> sameData q2 q3 -> sameData q1 q3.
Proof.
  unfold sameData. intros (A & B & C & D & E & F) (A' & B' & C' & D' & E' & F').
  repeat split; congruence.
Qed.

Lemma buildPickUI_run (ind : nat) (w : World) :
  buildPickUI ind w =
  match nth_error (values (self w)) ind with
  | Some v =>
      Some (tt, mkWorld (self w)
                        (events w ++ [ImGuiTextUnformatted (name (self w));
                                      ImGuiNextColumn;
                                      ImGuiText "%g" v;
                                      ImGuiNextColumn]))
  | None => None
  end.
Proof.
  unfold buildPickUI, bind, this, emit, undefined. cbn.
  destruct (nth_error (values (self w)) ind); [|reflexivity].
  cbn. rewrite <- !app_assoc. reflexivity.
Qed.

Lemma colormapSelectorBlock_run (c : ColorMapID) (w : World) :
  colormapSelectorBlock (Some c) w =
  Some (tt, mkWorld (set_pointProgram None (set_cMap c (self w)))
                    (events w ++ [HistUpdateColormap c; HistUpdateColormap c;
                                  RedrawRequested])).
Proof.
  unfold colormapSelectorBlock, getColorMap, setColorMap, requestRedraw,
    bind, update, this, ret, emit.
  cbn. rewrite <- !app_assoc. reflexivity.
Qed.

Lemma perform_sameData (op : Operation) (w w' : World) :
  exec (perform op) w = Some w' -> sameData (self w) (self w').
Proof.
  unfold exec. destruct op as [m| |ind|picked| | |]; cbn [perform].
  - destruct m as [|val|val|]; cbn [call].
    + rewrite resetMapRange_run. intros H; inversion H; repeat split.
    + rewrite setMapRange_run. intros H; inversion H; repeat split.
    + rewrite setColorMap_run. intros H; inversion H; repeat split.
    + rewrite geometryChanged_run. intros H; inversion H; repeat split.
  - rewrite draw_run. destruct (enabled (self w));
      intros H; inversion H; repeat split.
  - rewrite buildPickUI_run. destruct (nth_error (values (self w)) ind);
      intros H; inversion H; repeat split.
  - destruct picked as [c|].
    + rewrite colormapSelectorBlock_run. intros H; inversion H; repeat split.
    + intros H; inversion H; repeat split.
  - intros H; inversion H; repeat split.
  - intros H; inversion H; repeat split.
  - intros H; inversion H; repeat split.
Qed.

Lemma operations_keep_data_aux (ops : list Operation) :
  forall w w', performAll ops w = Some w' -> sameData (self w) (self w').
Proof.
  induction ops as [|op ops IH]; intros w w'; cbn [performAll].
  - intros H; inversion H. apply sameData_refl.
  - destruct (exec (perform op) w) as [w1|] eqn:E; [|discriminate].
    intros H. eapply sameData_trans.
    + eapply perform_sameData; eassumption.
    + now apply IH.
Qed.

(** [vizRange] holds a pair of floats at all times: the constructor
    and every call leave a pair that conversion to [float] does not
    change. *)
Lemma perform_keeps_floats (op : Operation) (w w' : World) :
  exec (perform op) w = Some w' ->
  narrow (vizRange (self w)) = vizRange (self w) ->
  narrow (vizRange (self w')) = vizRange (self w').
Proof.
  unfold exec. destruct op as [m| |ind|picked| | |]; cbn [perform].
  - destruct m as [|val|val|]; cbn [call].
    + rewrite resetMapRange_run. intros H _; inversion H. apply narrow_idem.
    + rewrite setMapRange_run. intros H _; inversion H. apply narrow_idem.
    + rewrite setColorMap_run. intros H; inversion H; auto.
    + rewrite geometryChanged_run. intros H; inversion H; auto.
  - rewrite draw_run. destruct (enabled (self w));
      intros H; inversion H; auto.
  - rewrite buildPickUI_run. destruct (nth_error (values (self w)) ind);
      intros H; inversion H; auto.
  - destruct picked as [c|].
    + rewrite colormapSelectorBlock_run. intros H; inversion H; auto.
    + intros H; inversion H; auto.
  - intros H; inversion H; auto.
  - intros H; inversion H; auto.
  - intros H; inversion H; auto.
Qed.

Lemma vizRange_holds_floats (name_ : string) (values_ : list double)
      (pointCloud_ : PointCloud) (dataType_ : DataType)
      (ops : list Operation) :
  forall w0 w,
    construct name_ values_ pointCloud_ dataType_ = Some w0 ->
    performAll ops w0 = Some w ->
    narrow (vizRange (self w)) = vizRange (self w).
Proof.
  intros w0 w Hc. rewrite construct_run in Hc. injection Hc as Hc.
  assert (F : narrow (vizRange (self w0)) = vizRange (self w0))
    by (rewrite <- Hc; apply narrow_idem).
  clear Hc. revert w0 F.
  induction ops as [|op ops IH]; intros w0 F; cbn [performAll].
  - intros H; inversion H; subst; exact F.
  - destruct (exec (perform op) w0) as [w1|] eqn:E; [|discriminate].
    apply IH. eapply perform_keeps_floats; eassumption.
Qed.

(** X9: Whatever is called after construction (mutators, draws, pick
    readouts, UI colormap picks, accessors), the name, the parent, the
    enabled flag, [dataType], [dataRange] and [values] stay as they
    were. *)
Theorem operations_keep_data (ops : list Operation) (w w' : World) :
  performAll ops w = Some w' ->
  name (self w') = name (self w) /\
  parent (self w') = parent (self w) /\
  enabled (self w') = enabled (self w) /\
  dataType (self w') = dataType (self w) /\
  dataRange (self w') = dataRange (self w) /\
  values (self w') = values (self w).
Proof. apply operations_keep_data_aux. Qed.

(** X10: [resetMapRange()] always brings back the range the constructor
    installed, whatever was called in between. *)
Theorem reset_restores_constructed_range (name_ : string)
        (values_ : list double) (pointCloud_ : PointCloud)
        (dataType_ : DataType) (ops : list Operation) (w0 w : World) :
  construct name_ values_ pointCloud_ dataType_ = Some w0 ->
  performAll ops w0 = Some w ->
  exists w',
    resetMapRange w = Some (tt, w') /\
    vizRange (self w') = vizRange (self w0).
Proof.
  rewrite construct_run. intros Hc Hops. inversion Hc; subst w0; clear Hc.
  apply operations_keep_data_aux in Hops.
  destruct Hops as (_ & _ & _ & Hdt & Hdr & _). cbn in Hdt, Hdr.
  rewrite resetMapRange_run. eexists. split; [reflexivity|].
  cbn. now rewrite Hdt, Hdr.
Qed.

(** X11: The pick readout of a point always shows the quantity's name and the
    value given for that point at construction, whatever was called in
    between, and it changes nothing in the object. *)
Theorem pick_shows_constructed_value (name_ : string)
        (values_ : list double) (pointCloud_ : PointCloud)
        (dataType_ : DataType) (ops : list Operation) (w0 w : World)
        (ind : nat) (v : double) :
  construct name_ values_ pointCloud_ dataType_ = Some w0 ->
  performAll ops w0 = Some w ->
  nth_error values_ ind = Some v ->
  buildPickUI ind w =
  Some (tt, mkWorld (self w)
                    (events w ++ [ImGuiTextUnformatted name_;
                                  ImGuiNextColumn;
                                  ImGuiText "%g" v;
                                  ImGuiNextColumn])).
Proof.
  rewrite construct_run. intros Hc Hops Hv. inversion Hc; subst w0; clear Hc.
  apply operations_keep_data_aux in Hops.
  destruct Hops as (Hn & _ & _ & _ & _ & Hvals). cbn in Hn, Hvals.
  rewrite buildPickUI_run, Hvals, Hv, Hn. reflexivity.
Qed.

(** X12: [niceName()] of a constructed quantity is its name followed by
    [" (scalar)"], whatever was called in between, and the call changes
    nothing. *)
Theorem niceName_of_constructed (name_ : string)
        (values_ : list double) (pointCloud_ : PointCloud)
        (dataType_ : DataType) (ops : list Operation) (w0 w : World) :
  construct name_ values_ pointCloud_ dataType_ = Some w0 ->
  performAll ops w0 = Some w ->
  niceName w = Some ((name_ ++ " (scalar)")%string, w).
Proof.
  rewrite construct_run. intros Hc Hops. inversion Hc; subst w0; clear Hc.
  apply operations_keep_data_aux in Hops.
  destruct Hops as (Hn & _). cbn in Hn.
  unfold niceName, bind, this, ret. now rewrite Hn.
Qed.

(** ** The colormap selector of the UI *)

(** X13: Picking colormap [c] in the UI stores [c], drops the program and
    leaves the object as [geometryChanged()] followed by
    [setColorMap(c)] would; the next [draw()] of an enabled quantity
    builds a program with the texture of [c].  Without a pick the block
    does nothing. *)
Theorem colormap_pick_then_draw (c : ColorMapID) (w : World) :
  exists w1 w2 u,
    colormapSelectorBlock (Some c) w = Some (tt, w1) /\
    (geometryChanged ;; setColorMap c) w = Some (tt, u) /\
    self w1 = self u /\
    draw w1 = Some (tt, w2) /\
    cMap (self w2) = c /\
    pointProgram (self w2) =
      (if enabled (self w)
       then Some (mkGLProgram (points (parent (self w))) (values (self w)) c
                              "wax"
                              (Some (fst (vizRange (self w))))
                              (Some (snd (vizRange (self w)))))
       else None) /\
    colormapSelectorBlock None w = Some (tt, w).
Proof.
  do 3 eexists. split; [apply colormapSelectorBlock_run|].
  split.
  { unfold bind. rewrite geometryChanged_run. apply setColorMap_run. }
  split; [reflexivity|].
  split; [apply draw_run|].
  cbn [self enabled set_pointProgram set_cMap].
  destruct (enabled (self w)); repeat split.
Qed.

(** ** Redraw requests *)

Definition isRedrawRequest (e : Event) : bool :=
  match e with
  | RedrawRequested => true
  | _ => false
  end.

Definition countRedraws (l : list Event) : nat :=
  List.length (filter isRedrawRequest l).

(** The mutators that end with [requestRedraw()]: all but
    [geometryChanged()]. *)
Definition requestsRedraw (m : Mutator) : bool :=
  match m with
  | CallGeometryChanged => false
  | _ => true
  end.

Lemma countRedraws_app (l1 l2 : list Event) :
  countRedraws (l1 ++ l2) = countRedraws l1 + countRedraws l2.
Proof. unfold countRedraws. now rewrite filter_app, length_app. Qed.

Lemma call_redraws (m : Mutator) (w : World) :
  exists w',
    exec (call m) w = Some w' /\
    countRedraws (events w') =
    countRedraws (events w) + (if requestsRedraw m then 1 else 0).
Proof.
  unfold exec. destruct m as [|val|val|]; cbn [call requestsRedraw].
  - rewrite resetMapRange_run. eexists. split; [reflexivity|].
    cbn [events]. now rewrite countRedraws_app.
  - rewrite setMapRange_run. eexists. split; [reflexivity|].
    cbn [events]. now rewrite countRedraws_app.
  - rewrite setColorMap_run. eexists. split; [reflexivity|].
    cbn [events]. now rewrite countRedraws_app.
  - rewrite geometryChanged_run. eexists. split; [reflexivity|].
    cbn [events]. lia.
Qed.

Lemma last_cons (A : Type) (l : list A) :
  forall a d : A, last (a :: l) d = last l a.
Proof.
  induction l as [|b l IH]; intros a d; [reflexivity|].
  change (last (a :: b :: l) d) with (last (b :: l) d).
  now rewrite !IH.
Qed.

(** X14: A sequence of mutator calls is always defined and asks for one
    redraw per [resetMapRange], [setMapRange] and [setColorMap] call;
    [geometryChanged] asks for none. *)
Theorem mutators_request_redraws (ms : list Mutator) :
  forall w,
  exists ws,
    history ms w = Some ws /\
    List.length ws = List.length ms /\
    countRedraws (events (last ws w)) =
    countRedraws (events w) + List.length (filter requestsRedraw ms).
Proof.
  induction ms as [|m ms IH]; intros w.
  - exists []. cbn. repeat split. lia.
  - destruct (call_redraws m w) as [w' [E Hc]].
    destruct (IH w') as [ws [Ews [Hlen Hws]]].
    exists (w' :: ws). cbn [history]. rewrite E, Ews.
    split; [reflexivity|]. split; [cbn; now rewrite Hlen|].
    rewrite last_cons.
    rewrite Hws, Hc. cbn [filter].
    destruct (requestsRedraw m); cbn [List.length]; lia.
Qed.

End Quantity.

(** * A concrete instance

    Colormap identifiers are numbers, points carry no data, and small
    data sets stand for the values of a quantity. *)

Definition sampleColorMap (dt : DataType) : nat :=
  match dt with
  | STANDARD => 0
  | SYMMETRIC => 1
  | MAGNITUDE => 2
  end.

(** Modelled from the spec: [robustMinMax] is defined outside the
    sources.  On a handful of values a trim fraction of [1e-5] discards
    nothing and the estimator of section 4.1 returns the plain minimum
    and maximum (section 8); that is the estimator the examples run. *)
Definition plainMinMax (vals : list double) (rangeEPS : double) : range :=
  match vals with
  | [] => (0%float, 0%float)
  | v :: vs =>
      fold_left (fun r x => (std_min (fst r) x, std_max (snd r) x)) vs (v, v)
  end.

(** A cloud of [n] points. *)
Definition cloud (n : nat) : PointCloud unit := mkPointCloud (repeat tt n).

(** The constructor of an enabled quantity over these collaborators. *)
Definition sampleConstruct (name_ : string) (values_ : list double)
           (pointCloud_ : PointCloud unit) (dataType_ : DataType)
  : option (World nat unit) :=
  construct sampleColorMap plainMinMax true name_ values_ pointCloud_ dataType_.

Definition threeValues : list double := [1; 2; 3]%float.
Definition constantValues : list double := [7; 7; 7; 7]%float.
Definition negativeValues : list double := [-3; -2; -1]%float.
Definition fiveValues : list double := [1; 2; 3; 4; 5]%float.
Definition tenthValues : list double := [0.1; 0.3]%float.
Definition fractionalValues : list double := [-0.7; 0.2]%float.

(** The constant data set of the design document under each mode. *)
Example constant_data_ranges :
  plainMinMax constantValues 1e-5%float = (7, 7)%float /\
  modeTable STANDARD (7, 7)%float = (7, 7)%float /\
  modeTable SYMMETRIC (7, 7)%float = (-7, 7)%float /\
  modeTable MAGNITUDE (7, 7)%float = (0, 7)%float.
Proof. repeat split; vm_compute; reflexivity. Qed.

(** ** Ranges that are not [float] values *)

(** C1 fails as stated: in STANDARD mode the data range [(0.1, 0.3)] is
    stored as the nearest pair of floats, which is not the data
    range. *)
Lemma resetMapRange_mode_table_counterexample :
  exists w0 w1,
    sampleConstruct "q" tenthValues (cloud 2) STANDARD = Some w0 /\
    dataType (self w0) = STANDARD /\
    dataRange (self w0) = (0.1, 0.3)%float /\
    resetMapRange w0 = Some (tt, w1) /\
    vizRange (self w1) = (0x1.99999ap-4, 0x1.333334p-2)%float /\
    vizRange (self w1) <> dataRange (self w0).
Proof.
  do 2 eexists. split; [unfold sampleConstruct; apply construct_run|].
  split; [reflexivity|]. split; [vm_compute; reflexivity|].
  split; [apply resetMapRange_run|]. split; [vm_compute; reflexivity|].
  intros H.
  apply (f_equal (fun r : range => PrimFloat.eqb (fst r) 0.1%float)) in H.
  vm_compute in H. discriminate H.
Qed.

(** C6 fails as stated: [setMapRange((0.1, 0.2))] followed by
    [getMapRange()] returns the nearest pair of floats, not
    [(0.1, 0.2)]. *)
Lemma setMapRange_getMapRange_counterexample :
  exists w0 w1,
    sampleConstruct "q" threeValues (cloud 3) STANDARD = Some w0 /\
    setMapRange (0.1, 0.2)%float w0 = Some (tt, w1) /\
    getMapRange w1 = Some ((0x1.99999ap-4, 0x1.99999ap-3)%float, w1) /\
    getMapRange w1 <> Some ((0.1, 0.2)%float, w1).
Proof.
  do 2 eexists. split; [unfold sampleConstruct; apply construct_run|].
  split; [apply setMapRange_run|]. split; [vm_compute; reflexivity|].
  intros H.
  apply (f_equal (fun o : option (range * World nat unit) =>
                    match o with
                    | Some (r, _) => PrimFloat.eqb (fst r) 0.1%float
                    | None => false
                    end)) in H.
  vm_compute in H. discriminate H.
Qed.

(** ** The range invariant *)

(** C2 fails as stated: [setMapRange] stores an unordered pair unordered,
    and in MAGNITUDE mode all-negative data give [(0, hi)] with
    [hi < 0] at construction. *)
Lemma vizRange_ordered_counterexample :
  (exists w0 w1,
      sampleConstruct "q" threeValues (cloud 3) STANDARD = Some w0 /\
      exec (call (CallSetMapRange nat (2, 1)%float)) w0 = Some w1 /\
      vizRange (self w1) = (2, 1)%float /\
      ordered (vizRange (self w1)) = false) /\
  (exists w0,
      sampleConstruct "q" negativeValues (cloud 3) MAGNITUDE = Some w0 /\
      vizRange (self w0) = (0, -1)%float /\
      ordered (vizRange (self w0)) = false).
Proof.
  split.
  - do 2 eexists. split; [vm_compute; reflexivity|].
    split; [vm_compute; reflexivity|]. split; vm_compute; reflexivity.
  - eexists. split; [vm_compute; reflexivity|].
    split; vm_compute; reflexivity.
Qed.

(** The invariant at work: constant data [7, 7, 7, 7] in SYMMETRIC mode,
    then an ordered range, a colormap change, a geometry change and a
    reset. *)
Lemma vizRange_ordered_invariant_witness :
  validData SYMMETRIC (plainMinMax constantValues 1e-5%float) /\
  Forall (orderedArgument (ColorMapID:=nat))
         [CallSetMapRange nat (-1, 1)%float; CallSetColorMap 3;
          CallGeometryChanged nat; CallResetMapRange nat] /\
  exists w0 ws,
    sampleConstruct "q" constantValues (cloud 4) SYMMETRIC = Some w0 /\
    history [CallSetMapRange nat (-1, 1)%float; CallSetColorMap 3;
             CallGeometryChanged nat; CallResetMapRange nat] w0 = Some ws /\
    Forall (fun w => ordered (vizRange (self w)) = true) (w0 :: ws).
Proof.
  assert (Hd : validData SYMMETRIC (plainMinMax constantValues 1e-5%float)).
  { split; [vm_compute; reflexivity|discriminate]. }
  assert (Hm : Forall (orderedArgument (ColorMapID:=nat))
                 [CallSetMapRange nat (-1, 1)%float; CallSetColorMap 3;
                  CallGeometryChanged nat; CallResetMapRange nat]).
  { repeat constructor. }
  split; [exact Hd|]. split; [exact Hm|].
  exact (vizRange_ordered_invariant sampleColorMap plainMinMax true
           "q" constantValues (cloud 4) Hd Hm).
Defined.

(** ** The constructor *)

(** C4 fails as stated: the histogram is notified (events 1 and 2)
    before the estimator runs (event 3), not after the range is known. *)
Lemma construct_order_counterexample :
  exists w,
    sampleConstruct "q" threeValues (cloud 3) STANDARD = Some w /\
    events w =
      [DefaultColorMapCalled nat unit STANDARD;
       HistUpdateColormap unit 0;
       HistBuildHistogram nat unit threeValues;
       RobustMinMaxCalled nat unit threeValues 1e-5%float;
       RedrawRequested nat unit] /\
    firstIndex (@isHistogramNotification nat unit) (events w) = Some 1 /\
    firstIndex (@isRangeEstimate nat unit) (events w) = Some 3 /\
    happensBefore (@isRangeEstimate nat unit)
                  (@isHistogramNotification nat unit) (events w) = false.
Proof.
  eexists. split; [vm_compute; reflexivity|]. repeat split.
Qed.

(** Five values for a cloud of ten points: the mismatch is reported and
    the quantity holds the five values. *)
Lemma construct_length_mismatch_witness :
  List.length fiveValues <> List.length (points (cloud 10)) /\
  exists w,
    sampleConstruct "q" fiveValues (cloud 10) STANDARD = Some w /\
    In (ErrorReported nat unit
          "Point cloud scalar quantity q does not have same number of values (5) as point cloud size (10)")
       (events w) /\
    values (self w) = fiveValues /\
    List.length (values (self w)) = 5 /\
    List.length (values (self w)) <> List.length (points (parent (self w))).
Proof.
  assert (H : List.length fiveValues <> List.length (points (cloud 10))).
  { cbn. lia. }
  split; [exact H|].
  exact (construct_length_mismatch sampleColorMap plainMinMax true
           "q" fiveValues (cloud 10) STANDARD H).
Defined.

(** ** The pick readout *)

(** C10: [buildPickUI(ind)] reads [values[ind]] unchecked, so it is
    defined exactly for [ind < values.length]; after a construction
    with 5 values for a cloud of 10 points, the point index 7 is valid
    for the cloud and outside the values. *)
Theorem buildPickUI_needs_index_in_range :
  (forall (ColorMapID vec3 : Type) (w : World ColorMapID vec3) (ind : nat),
      (exists w', buildPickUI ind w = Some (tt, w')) <->
      ind < List.length (values (self w))) /\
  (exists w,
      sampleConstruct "q" fiveValues (cloud 10) STANDARD = Some w /\
      7 < List.length (points (parent (self w))) /\
      ~ 7 < List.length (values (self w)) /\
      buildPickUI 7 w = None).
Proof.
  split.
  - intros. apply buildPickUI_defined_iff.
  - eexists. split; [vm_compute; reflexivity|].
    cbn. repeat split; try lia.
Qed.

(** ** The draw program after a colormap change *)

(** C3 on the code: an enabled quantity is drawn, which builds the
    program with the texture of colormap 0; [setColorMap(7)] then stores
    7 and leaves that program in place, so the next [draw()] still draws
    with the texture of colormap 0.  The selector block of
    [buildCustomUI] drops the program on the same change, and the next
    [draw()] rebuilds it with colormap 7.  [setMapRange] keeps the
    program, as the claim says. *)
Theorem setColorMap_leaves_stale_program :
  exists w0 w1 w2 w3 p,
    sampleConstruct "q" threeValues (cloud 3) STANDARD = Some w0 /\
    draw w0 = Some (tt, w1) /\
    setColorMap 7 w1 = Some (tt, w2) /\
    draw w2 = Some (tt, w3) /\
    cMap (self w2) = 7 /\
    pointProgram (self w1) = Some p /\
    pointProgram (self w2) = Some p /\
    pointProgram (self w3) = Some p /\
    t_colormap p = 0 /\
    last (events w3) (RedrawRequested nat unit) = ProgramDrawn p /\
    (exists u2 u3 p',
        colormapSelectorBlock (Some 7) w1 = Some (tt, u2) /\
        pointProgram (self u2) = None /\
        draw u2 = Some (tt, u3) /\
        pointProgram (self u3) = Some p' /\
        t_colormap p' = 7) /\
    (exists v2,
        setMapRange (1, 2)%float w1 = Some (tt, v2) /\
        pointProgram (self v2) = Some p).
Proof.
  do 5 eexists.
  split; [vm_compute; reflexivity|].
  split; [vm_compute; reflexivity|].
  split; [vm_compute; reflexivity|].
  split; [vm_compute; reflexivity|].
  split; [reflexivity|].
  split; [reflexivity|].
  split; [reflexivity|].
  split; [reflexivity|].
  split; [reflexivity|].
  split; [reflexivity|].
  split.
  - do 3 eexists.
    split; [vm_compute; reflexivity|].
    split; [reflexivity|].
    split; [vm_compute; reflexivity|].
    split; reflexivity.
  - eexists. split; [vm_compute; reflexivity|]. reflexivity.
Qed.

(** * Further properties at concrete inputs *)

(** A session over a constructed quantity: an unordered range is set, the
    quantity is drawn, a point is picked, a colormap is chosen in the UI,
    the geometry changes, the name is read and the range is reset. *)
Definition sampleSession : list (Operation nat) :=
  [Mutate (CallSetMapRange nat (2, 1)%float); Draw nat; PickUI nat 1;
   SelectColormap (Some 5); Mutate (CallGeometryChanged nat);
   ReadNiceName nat; Mutate (CallResetMapRange nat)].

(** The data range [(-0.7, 0.2)] in SYMMETRIC mode: the stored range is
    the pair of floats nearest to [(-0.7, 0.7)]. *)
Lemma resetMapRange_symmetric_encloses_witness :
  exists w,
    sampleConstruct "q" fractionalValues (cloud 2) SYMMETRIC = Some w /\
    dataType (self w) = SYMMETRIC /\
    ordered (dataRange (self w)) = true /\
    exists w',
      resetMapRange w = Some (tt, w') /\
      fst (vizRange (self w')) = neg (snd (vizRange (self w'))) /\
      leb (fst (vizRange (self w')))
          (Float32.to_float (fst (dataRange (self w)))) = true /\
      leb (Float32.to_float (snd (dataRange (self w))))
          (snd (vizRange (self w'))) = true.
Proof.
  eexists. split; [unfold sampleConstruct; apply construct_run|].
  split; [reflexivity|]. split; [vm_compute; reflexivity|].
  apply resetMapRange_symmetric_encloses; [reflexivity|vm_compute; reflexivity].
Defined.

Lemma resetMapRange_ordered_iff_witness :
  exists w,
    sampleConstruct "q" fractionalValues (cloud 2) SYMMETRIC = Some w /\
    dataType (self w) = SYMMETRIC /\
    exists w',
      resetMapRange w = Some (tt, w') /\
      (ordered (vizRange (self w')) = true <->
       PrimFloat.is_nan (fst (dataRange (self w))) = false).
Proof.
  eexists. split; [unfold sampleConstruct; apply construct_run|].
  split; [reflexivity|].
  apply resetMapRange_ordered_iff; reflexivity.
Defined.


(** A drawn quantity whose range is then set to [(0.1, 0.2)]. *)
Lemma setMapRange_then_draw_witness :
  exists w0 w p,
    sampleConstruct "q" threeValues (cloud 3) STANDARD = Some w0 /\
    draw w0 = Some (tt, w) /\
    pointProgram (self w) = Some p /\
    enabled (self w) = true /\
    exists w1 w2,
      setMapRange (0.1, 0.2)%float w = Some (tt, w1) /\
      draw w1 = Some (tt, w2) /\
      pointProgram (self w2) =
      Some (withUniforms p (narrow (0.1, 0.2)%float)) /\
      last (events w2) (RedrawRequested nat unit) =
      ProgramDrawn (withUniforms p (narrow (0.1, 0.2)%float)).
Proof.
  do 3 eexists. split; [unfold sampleConstruct; apply construct_run|].
  split; [apply draw_run|].
  split; [reflexivity|]. split; [reflexivity|].
  apply setMapRange_then_draw; reflexivity.
Defined.

(** Five values on a cloud of ten points, drawn. *)
Lemma mismatch_reaches_the_program_witness :
  List.length fiveValues <> List.length (points (cloud 10)) /\
  exists w0 w1 p,
    sampleConstruct "q" fiveValues (cloud 10) STANDARD = Some w0 /\
    draw w0 = Some (tt, w1) /\
    pointProgram (self w1) = Some p /\
    List.length (a_value p) = List.length fiveValues /\
    List.length (a_position p) = List.length (points (cloud 10)) /\
    List.length (a_value p) <> List.length (a_position p).
Proof.
  assert (H : List.length fiveValues <> List.length (points (cloud 10))).
  { cbn. lia. }
  split; [exact H|].
  exact (mismatch_reaches_the_program sampleColorMap plainMinMax
           "q" fiveValues (cloud 10) STANDARD H eq_refl).
Defined.

Lemma operations_keep_data_witness :
  exists w0 w,
    sampleConstruct "q" fiveValues (cloud 10) STANDARD = Some w0 /\
    performAll sampleSession w0 = Some w /\
    name (self w) = name (self w0) /\
    parent (self w) = parent (self w0) /\
    enabled (self w) = enabled (self w0) /\
    dataType (self w) = dataType (self w0) /\
    dataRange (self w) = dataRange (self w0) /\
    values (self w) = values (self w0).
Proof.
  pose proof (construct_run sampleColorMap plainMinMax true
                "q" fiveValues (cloud 10) STANDARD) as H1.
  match type of H1 with _ = Some ?x => set (w0 := x) in * end.
  assert (H2 : { w | performAll sampleSession w0 = Some w })
    by (eexists; vm_compute; reflexivity).
  destruct H2 as [w H2].
  exists w0, w. split; [exact H1|]. split; [exact H2|].
  eapply operations_keep_data; exact H2.
Defined.

Lemma reset_restores_constructed_range_witness :
  exists w0 w,
    sampleConstruct "q" fiveValues (cloud 10) STANDARD = Some w0 /\
    performAll [Mutate (CallSetMapRange nat (2, 1)%float); Draw nat] w0
      = Some w /\
    exists w',
      resetMapRange w = Some (tt, w') /\
      vizRange (self w') = vizRange (self w0).
Proof.
  pose proof (construct_run sampleColorMap plainMinMax true
                "q" fiveValues (cloud 10) STANDARD) as H1.
  match type of H1 with _ = Some ?x => set (w0 := x) in * end.
  assert (H2 : { w | performAll [Mutate (CallSetMapRange nat (2, 1)%float);
                                 Draw nat] w0 = Some w })
    by (eexists; vm_compute; reflexivity).
  destruct H2 as [w H2].
  exists w0, w. split; [exact H1|]. split; [exact H2|].
  eapply reset_restores_constructed_range; [exact H1|exact H2].
Defined.

Lemma pick_shows_constructed_value_witness :
  exists w0 w,
    sampleConstruct "q" fiveValues (cloud 10) STANDARD = Some w0 /\
    performAll sampleSession w0 = Some w /\
    nth_error fiveValues 3 = Some 4%float /\
    buildPickUI 3 w =
    Some (tt, mkWorld (self w)
                      (events w ++ [ImGuiTextUnformatted nat unit "q";
                                    ImGuiNextColumn nat unit;
                                    ImGuiText nat unit "%g" 4%float;
                                    ImGuiNextColumn nat unit])).
Proof.
  pose proof (construct_run sampleColorMap plainMinMax true
                "q" fiveValues (cloud 10) STANDARD) as H1.
  match type of H1 with _ = Some ?x => set (w0 := x) in * end.
  assert (H2 : { w | performAll sampleSession w0 = Some w })
    by (eexists; vm_compute; reflexivity).
  destruct H2 as [w H2].
  exists w0, w. split; [exact H1|]. split; [exact H2|].
  split; [reflexivity|].
  eapply pick_shows_constructed_value; [exact H1|exact H2|reflexivity].
Defined.

Lemma niceName_of_constructed_witness :
  exists w0 w,
    sampleConstruct "q" fiveValues (cloud 10) STANDARD = Some w0 /\
    performAll sampleSession w0 = Some w /\
    niceName w = Some ("q (scalar)"%string, w).
Proof.
  pose proof (construct_run sampleColorMap plainMinMax true
                "q" fiveValues (cloud 10) STANDARD) as H1.
  match type of H1 with _ = Some ?x => set (w0 := x) in * end.
  assert (H2 : { w | performAll sampleSession w0 = Some w })
    by (eexists; vm_compute; reflexivity).
  destruct H2 as [w H2].
  exists w0, w. split; [exact H1|]. split; [exact H2|].
  change "q (scalar)"%string with ("q" ++ " (scalar)")%string.
  eapply niceName_of_constructed; [exact H1|exact H2].
Defined.
